(** * Folder uploader: job runner, job list, poll loop, cancel, settings

    A shallow embedding of [desktop_app_2.py].  The worker function
    [run_upload_mp] becomes a computation in a writer/exception monad
    whose output is the sequence of tuples it puts on its
    [multiprocessing.Queue]; the methods of [FolderUploaderApp] that
    touch [self.jobs] become functions on an explicit application
    state.  What the operating system decides (whether [Popen] raises,
    which lines the child prints, its return code, whether a worker is
    still alive) is an explicit argument of the definitions. *)

From Stdlib Require Import ZArith Ascii String DecimalString DecimalZ.
From stdpp Require Import base tactics option list strings gmap.

Local Open Scope string_scope.
Local Open Scope list_scope.
Local Open Scope stdpp_scope.

#[local] Arguments String.append !_ _ / : simpl nomatch.

(** ** Python strings *)

(** [str(n)] for a Python [int]. *)
Definition str_int (n : Z) : string := NilEmpty.string_of_int (Z.to_int n).

(** [sep.join(parts)]. *)
Definition join (sep : string) (parts : list string) : string :=
  String.concat sep parts.

(** The text with the given bytes. *)
Definition of_bytes (bytes : list nat) : string :=
  foldr (fun n s => String (ascii_of_nat n) s) EmptyString bytes.

(** A Python [str] is held as the UTF-8 encoding of its characters,
    one [ascii] per byte, as Rocq's own string literals are; this is
    the text after decoding, whatever encoding it arrived in.
    [str.strip()] removes from both ends the characters for which
    [str.isspace()] holds.  Those encoded in one byte: U+0009 ..
    U+000D, U+001C .. U+001F and the space. *)
Definition isspace (c : ascii) : bool :=
  let n := nat_of_ascii c in
  ((9 <=? n)%nat && (n <=? 13)%nat) || ((28 <=? n)%nat && (n <=? 32)%nat).

(** Those encoded in two bytes: U+0085 (C2 85) and U+00A0 (C2 A0). *)
Definition isspace2 (a b : ascii) : bool :=
  (nat_of_ascii a =? 194)%nat
  && ((nat_of_ascii b =? 133)%nat || (nat_of_ascii b =? 160)%nat).

(** Those encoded in three bytes: U+1680 (E1 9A 80), U+2000 .. U+200A
    (E2 80 80 .. E2 80 8A), U+2028 and U+2029 (E2 80 A8, E2 80 A9),
    U+202F (E2 80 AF), U+205F (E2 81 9F) and U+3000 (E3 80 80). *)
Definition isspace3 (a b c : ascii) : bool :=
  let '(x, y, z) := (nat_of_ascii a, nat_of_ascii b, nat_of_ascii c) in
  ((x =? 225) && (y =? 154) && (z =? 128))%nat
  || ((x =? 226) && (y =? 128)
      && (((128 <=? z) && (z <=? 138)) || (z =? 168) || (z =? 169) || (z =? 175)))%nat
  || ((x =? 226) && (y =? 129) && (z =? 159))%nat
  || ((x =? 227) && (y =? 128) && (z =? 128))%nat.

(** Dropping the whitespace at the front of a text.  With [backwards]
    the text is read from its last byte to its first, so the bytes of
    one character arrive in the opposite order. *)
Fixpoint strip_front (backwards : bool) (s : string) : string :=
  match s with
  | EmptyString => EmptyString
  | String a s1 =>
      if isspace a then strip_front backwards s1
      else
        match s1 with
        | EmptyString => s
        | String b s2 =>
            if (if backwards then isspace2 b a else isspace2 a b)
            then strip_front backwards s2
            else
              match s2 with
              | EmptyString => s
              | String c s3 =>
                  if (if backwards then isspace3 c b a else isspace3 a b c)
                  then strip_front backwards s3
                  else s
              end
        end
  end.

Definition lstrip (s : string) : string := strip_front false s.

Definition rstrip (s : string) : string :=
  String.rev (strip_front true (String.rev s)).

Definition strip (s : string) : string := rstrip (lstrip s).

(** [needle in hay]. *)
Definition substring_of (needle hay : string) : Prop :=
  exists pre post, hay = pre +:+ needle +:+ post.

(** ** The queue protocol *)

(** The tuples [(msg_type, msg)] the worker puts on its queue:
    [('output', s)], [('status', s)], [('error', s)], [('finished', None)]. *)
Inductive message : Type :=
| output (msg : string)
| status (msg : string)
| error (msg : string)
| finished.

Global Instance message_eq_dec : EqDecision message.
Proof. solve_decision. Defined.

Definition is_status (m : message) : bool :=
  match m with status _ => true | _ => false end.

Definition is_output (m : message) : bool :=
  match m with output _ => true | _ => false end.

(** ** A writer/exception monad for the worker

    A worker computation puts tuples on the queue, in order, and either
    returns a value or raises; [Raise e] carries [str(e)]. *)
Inductive result (A : Type) : Type :=
| Ok (a : A)
| Raise (e : string).
Arguments Ok {A} a.
Arguments Raise {A} e.

Module Worker.

Definition M (A : Type) : Type := (list message * result A)%type.

Definition ret {A} (a : A) : M A := ([], Ok a).

Definition raise {A} (e : string) : M A := ([], Raise e).

Definition bind {A B} (c : M A) (k : A -> M B) : M B :=
  match c with
  | (puts, Ok a) => let '(puts', r) := k a in (puts ++ puts', r)
  | (puts, Raise e) => (puts, Raise e)
  end.

(** [output_queue.put(m)]. *)
Definition put (m : message) : M unit := ([m], Ok tt).

(** [try: c  except Exception as e: h e]. *)
Definition try_except {A} (c : M A) (h : string -> M A) : M A :=
  match c with
  | (puts, Ok a) => (puts, Ok a)
  | (puts, Raise e) => let '(puts', r) := h e in (puts ++ puts', r)
  end.

(** [try: c  finally: f]; an exception of [c] is re-raised after [f]
    unless [f] raises itself. *)
Definition try_finally {A} (c : M A) (f : M unit) : M A :=
  match c, f with
  | (puts, r), (puts', Ok _) => (puts ++ puts', r)
  | (puts, _), (puts', Raise e) => (puts ++ puts', Raise e)
  end.

Definition puts_of {A} (c : M A) : list message := fst c.

End Worker.

(** stdpp's monad notations [x ← c; k] and [c ;; k] for the worker. *)
Global Instance worker_ret : MRet Worker.M := @Worker.ret.
Global Instance worker_bind : MBind Worker.M :=
  fun A B k c => Worker.bind c k.

(** ** The job arguments and the command line *)

(** The dict [args] that [_launch_upload_job] builds and hands to
    [run_upload_mp]: the text fields come from [StringVar.get()], the
    two flags from [BooleanVar.get()], the policy from [IntVar.get()]. *)
Record upload_args : Type := {
  script_path : string;
  folder_path : string;
  username : string;
  password : string;
  source : string;
  descriptor : string;
  origin : string;
  avatar : string;
  list_id : string;
  warped : bool;
  name_as_userdata : bool;
  multi_face_policy : Z
}.

(** ["1" if b else "0"]. *)
Definition flag01 (b : bool) : string := if b then "1" else "0".

(** The list [cmd] of [run_upload_mp]. *)
Definition cmd (python_exec : string) (args : upload_args) : list string :=
  [ python_exec; script_path args;
    "--login"; username args;
    "--password"; password args;
    "--source"; source args;
    "--warped"; flag01 (warped args);
    "--name_as_userdata"; flag01 (name_as_userdata args);
    "--descriptor"; descriptor args;
    "--origin"; origin args;
    "--avatar"; avatar args;
    "--list_id"; list_id args;
    "--multi_face_policy"; str_int (multi_face_policy args);
    "--basic_attr"; "1";
    "--score_threshold"; "0.0";
    "--list_linked"; "1" ].

(** ** The worker's environment *)

(** How reading [proc.stdout] ends: end of file, after which
    [proc.wait()] sets [proc.returncode]; or [readline] raises. *)
Inductive read_end : Type :=
| ReadEOF (returncode : Z)
| ReadRaises (e : string).

(** What [subprocess.Popen(cmd, cwd=folder_path, ...)] does. *)
Inductive popen_outcome : Type :=
| PopenRaises (e : string)
| Started (lines : list string) (fin : read_end).

Record worker_env : Type := {
  sys_executable : string;
  os_posix : bool;             (* os.name == 'posix' *)
  access_x_ok : bool;          (* os.access(script_path, os.X_OK) *)
  chmod_raises : option string;(* os.chmod(script_path, 0o755) *)
  popen : popen_outcome
}.

(** [for line in iter(proc.stdout.readline, ''): if line: put(('output', line.strip()))]:
    the iteration stops at the first empty string. *)
Fixpoint read_lines (lines : list string) : Worker.M unit :=
  match lines with
  | [] => Worker.ret tt
  | line :: rest =>
      if decide (line = "") then Worker.ret tt
      else Worker.put (output (strip line));; read_lines rest
  end.

Definition chmod_script (env : worker_env) : Worker.M unit :=
  if os_posix env && negb (access_x_ok env) then
    Worker.try_except
      (match chmod_raises env with
       | Some e => Worker.raise e
       | None => Worker.ret tt
       end)
      (fun _ => Worker.ret tt)
  else Worker.ret tt.

Definition status_succeeded : string := "Upload completed successfully!".

Definition status_failed (returncode : Z) : string :=
  "Upload failed with code " +:+ str_int returncode.

(** What the worker does with the started process: forward its lines,
    wait, report the return code. *)
Definition supervise (lines : list string) (fin : read_end) : Worker.M unit :=
  read_lines lines;;
  match fin with
  | ReadRaises e => Worker.raise e
  | ReadEOF returncode =>
      if decide (returncode = 0%Z)
      then Worker.put (status status_succeeded)
      else Worker.put (status (status_failed returncode))
  end.

(** The [try] block of [run_upload_mp] up to the call of
    [subprocess.Popen]. *)
Definition before_popen (args : upload_args) (env : worker_env) : Worker.M unit :=
  let python_exec := sys_executable env in
  let cmd := cmd python_exec args in
  let folder_path := folder_path args in
  Worker.put (output ("Starting upload from: " +:+ folder_path));;
  Worker.put (output ("Command: " +:+ join " " cmd));;
  chmod_script env.

(** The body of the [try] block of [run_upload_mp]. *)
Definition run_upload_body (args : upload_args) (env : worker_env) : Worker.M unit :=
  before_popen args env;;
  match popen env with
  | PopenRaises e => Worker.raise e
  | Started lines fin => supervise lines fin
  end.

(** [run_upload_mp(args, output_queue)]. *)
Definition run_upload_mp (args : upload_args) (env : worker_env) : Worker.M unit :=
  Worker.try_finally
    (Worker.try_except
       (run_upload_body args env)
       (fun e => Worker.put (error ("Error running upload: " +:+ e))))
    (Worker.put finished).

(** The tuples one complete run of the worker puts on its queue. *)
Definition emitted (args : upload_args) (env : worker_env) : list message :=
  Worker.puts_of (run_upload_mp args env).

(** ** Worker processes and jobs *)

(** A [multiprocessing.Process] whose target is [run_upload_mp].  The
    worker runs concurrently with the GUI: [to_put] is what it has not
    yet put on its queue, [alive] is what [is_alive()] answers.
    [terminate_raises] is the exception [terminate()] would raise, if
    any.  [terminate()] kills the worker process itself (SIGTERM, or
    TerminateProcess on Windows): its [except] and [finally] clauses do
    not run, and nothing of [to_put] is put afterwards.

    The call and the death of the worker that follows it are one step
    here: [alive] is false from the call on.  The real [is_alive()]
    still answers [True] for the moment the signal takes to arrive;
    what the GUI would do within that moment is not described. *)
Module Process.

Record t : Type := {
  to_put : list message;
  alive : bool;
  terminate_raises : option string
}.

Definition is_alive (p : t) : bool := alive p.

Definition terminate (p : t) : result t :=
  match terminate_raises p with
  | Some e => Raise e
  | None => Ok {| to_put := to_put p; alive := false;
                  terminate_raises := terminate_raises p |}
  end.

(** [multiprocessing.Process(target=run_upload_mp, args=(args, q)).start()]. *)
Definition start (args : upload_args) (env : worker_env)
    (term : option string) : t :=
  {| to_put := emitted args env; alive := true; terminate_raises := term |}.

End Process.

(** The dict [job] of [self.jobs]; [queue] is the content of the job's
    [multiprocessing.Queue], oldest first. *)
Module Job.

Record t : Type := {
  process : Process.t;
  queue : list message;
  folder : string;
  list_id : string;
  status : string
}.

Definition set_status (s : string) (j : t) : t :=
  {| process := process j; queue := queue j; folder := folder j;
     list_id := list_id j; status := s |}.

Definition set_queue (q : list message) (j : t) : t :=
  {| process := process j; queue := q; folder := folder j;
     list_id := list_id j; status := status j |}.

Definition set_process (p : Process.t) (j : t) : t :=
  {| process := p; queue := queue j; folder := folder j;
     list_id := list_id j; status := status j |}.

End Job.

(** The status strings the GUI writes into [job['status']]. *)
Definition Uploading : string := "Uploading...".
Definition Finished : string := "Finished".
Definition Stopped : string := "Stopped".

(** ** The application state *)

(** The part of [FolderUploaderApp] that the job machinery reads and
    writes.  [log_text] holds the arguments of [log_message], oldest
    first (the clock prefix is left out); [after_pending] counts the
    [monitor_all_outputs] callbacks registered with [root.after] that
    have not fired yet; [dialogs] the [messagebox.showerror] texts. *)
Record app : Type := {
  jobs : list Job.t;
  log_text : list string;
  status_var : string;
  progress_bar : bool;     (* the indeterminate bar is animating *)
  stop_btn : bool;         (* state is tk.NORMAL *)
  after_pending : nat;
  dialogs : list string
}.

Definition set_jobs (js : list Job.t) (st : app) : app :=
  {| jobs := js; log_text := log_text st; status_var := status_var st;
     progress_bar := progress_bar st; stop_btn := stop_btn st;
     after_pending := after_pending st; dialogs := dialogs st |}.

Definition log_message (message : string) (st : app) : app :=
  {| jobs := jobs st; log_text := log_text st ++ [message];
     status_var := status_var st; progress_bar := progress_bar st;
     stop_btn := stop_btn st; after_pending := after_pending st;
     dialogs := dialogs st |}.

Definition status_var_set (s : string) (st : app) : app :=
  {| jobs := jobs st; log_text := log_text st; status_var := s;
     progress_bar := progress_bar st; stop_btn := stop_btn st;
     after_pending := after_pending st; dialogs := dialogs st |}.

Definition progress_bar_set (b : bool) (st : app) : app :=
  {| jobs := jobs st; log_text := log_text st; status_var := status_var st;
     progress_bar := b; stop_btn := stop_btn st;
     after_pending := after_pending st; dialogs := dialogs st |}.

Definition stop_btn_config (b : bool) (st : app) : app :=
  {| jobs := jobs st; log_text := log_text st; status_var := status_var st;
     progress_bar := progress_bar st; stop_btn := b;
     after_pending := after_pending st; dialogs := dialogs st |}.

Definition root_after (st : app) : app :=
  {| jobs := jobs st; log_text := log_text st; status_var := status_var st;
     progress_bar := progress_bar st; stop_btn := stop_btn st;
     after_pending := S (after_pending st); dialogs := dialogs st |}.

Definition after_fired (st : app) : app :=
  {| jobs := jobs st; log_text := log_text st; status_var := status_var st;
     progress_bar := progress_bar st; stop_btn := stop_btn st;
     after_pending := pred (after_pending st); dialogs := dialogs st |}.

Definition showerror (text : string) (st : app) : app :=
  {| jobs := jobs st; log_text := log_text st; status_var := status_var st;
     progress_bar := progress_bar st; stop_btn := stop_btn st;
     after_pending := after_pending st; dialogs := dialogs st ++ [text] |}.

(** The state after [__init__], before any launch. *)
Definition init_app : app :=
  {| jobs := [];
     log_text := ["=== Gelecek Folder Uploader Initialized ===";
                  "Select a folder and configure settings to begin upload."];
     status_var := "Ready"; progress_bar := false; stop_btn := false;
     after_pending := 0; dialogs := [] |}.

(** ** The poll loop: [monitor_all_outputs] *)

(** One iteration of the [while True] loop body, for the tuple [m]
    that [q.get_nowait()] returned. *)
Definition on_message (m : message) (acc : Job.t * app) : Job.t * app :=
  let '(job, st) := acc in
  match m with
  | output msg =>
      (job, log_message ("[" +:+ Job.folder job +:+ "] " +:+ msg) st)
  | error msg =>
      (job, log_message ("ERROR [" +:+ Job.folder job +:+ "]: " +:+ msg) st)
  | status msg =>
      let job' := Job.set_status msg job in
      (job', log_message ("STATUS [" +:+ Job.folder job' +:+ "]: " +:+ msg)
               (status_var_set msg st))
  | finished => (Job.set_status Finished job, st)
  end.

(** [while True: ... q.get_nowait() ...] until [queue.Empty]: every
    tuple in the queue is taken, oldest first.

    The queue holds whole tuples, since a put is one step of the
    worker (see [worker_put] below).  A worker killed half way through
    writing a tuple leaves a truncated message in the pipe, on which
    the real [get_nowait()] does not return: that call is not
    described here, and what is stated of a poll is stated of a poll
    that returns.  Likewise a poll is one step of the system: a tuple
    that arrives between [queue.Empty] and the [is_alive()] that
    follows it belongs to the next step. *)
Definition drain (job : Job.t) (st : app) : Job.t * app :=
  let '(job', st') := foldl (fun acc m => on_message m acc) (job, st) (Job.queue job) in
  (Job.set_queue [] job', st').

(** The [for job in self.jobs] loop; the Boolean is [still_running]. *)
Fixpoint monitor_loop (js : list Job.t) (st : app) (still_running : bool)
    : list Job.t * app * bool :=
  match js with
  | [] => ([], st, still_running)
  | job :: rest =>
      let '(job', st') := drain job st in
      let still_running' :=
        if Process.is_alive (Job.process job') then true else still_running in
      let '(rest', st'', b) := monitor_loop rest st' still_running' in
      (job' :: rest', st'', b)
  end.

(** The condition of the list comprehension that rebuilds [self.jobs]. *)
Definition kept (j : Job.t) : bool :=
  Process.is_alive (Job.process j) || negb (String.eqb (Job.status j) Finished).

Definition running_text (n : nat) : string :=
  str_int (Z.of_nat n) +:+ " job(s) running...".

Definition monitor_all_outputs (st : app) : app :=
  let '(js, st1, still_running) := monitor_loop (jobs st) st false in
  let st2 := set_jobs (List.filter kept js) st1 in
  if still_running then
    let n := length (List.filter (fun j => Process.is_alive (Job.process j)) (jobs st2)) in
    root_after (status_var_set (running_text n) st2)
  else
    log_message "=== All Upload Jobs Finished ==="
      (stop_btn_config false (status_var_set "Ready" (progress_bar_set false st2))).

(** The Tk main loop fires one pending [after] callback. *)
Definition tick (st : app) : app := monitor_all_outputs (after_fired st).

(** ** Cancelling: [stop_upload] and [stop_selected_job] *)

(** The two statements inside the [try] of both cancel paths:
    [job['process'].terminate(); job['status'] = 'Stopped']. *)
Definition terminate_job (job : Job.t) : result Job.t :=
  match Process.terminate (Job.process job) with
  | Ok p => Ok (Job.set_status Stopped (Job.set_process p job))
  | Raise e => Raise e
  end.

(** The body of the [for job in self.jobs] loop of [stop_upload]; the
    Boolean tells whether [stopped] was incremented. *)
Definition stop_one (job : Job.t) : Job.t * bool :=
  if Process.is_alive (Job.process job) then
    match terminate_job job with
    | Ok job' => (job', true)
    | Raise _ => (job, false)          (* except Exception: pass *)
    end
  else (job, false).

Fixpoint stop_loop (js : list Job.t) (stopped : nat) : list Job.t * nat :=
  match js with
  | [] => ([], stopped)
  | job :: rest =>
      let '(job', hit) := stop_one job in
      let '(rest', n) := stop_loop rest (if hit then S stopped else stopped) in
      (job' :: rest', n)
  end.

Definition stop_upload (st : app) : app :=
  let '(js, stopped) := stop_loop (jobs st) 0 in
  let st' := set_jobs js st in
  match stopped with
  | O => log_message "No running jobs to stop." st'
  | S _ =>
      status_var_set "Upload stopped"
        (log_message ("Stopped " +:+ str_int (Z.of_nat stopped)
                        +:+ " running upload job(s)") st')
  end.

(** [stop_selected_job]; [sel] is [self.joblist_box.curselection()].
    The result is [Raise] where the method would raise to Tk. *)
Definition stop_selected_job (sel : list nat) (st : app) : result app :=
  match sel with
  | [] => Ok st
  | idx :: _ =>
      if decide (length (jobs st) <= idx) then Ok st
      else
        match jobs st !! idx with
        | None => Raise "list index out of range"
        | Some job =>
            if Process.is_alive (Job.process job) then
              match terminate_job job with
              | Ok job' =>
                  Ok (log_message
                        ("Stopped job for folder: " +:+ Job.folder job'
                           +:+ " (List ID: " +:+ Job.list_id job' +:+ ")")
                        (set_jobs (<[idx := job']> (jobs st)) st))
              | Raise _ =>
                  Ok (log_message
                        ("Failed to stop job for folder: " +:+ Job.folder job) st)
              end
            else
              Ok (log_message ("Job already finished: " +:+ Job.folder job) st)
        end
  end.

(** ** Launching: [_launch_upload_job] *)

(** What the form's Tk variables and the list dropdown answer when
    [_launch_upload_job] reads them.  The policy is typed into an
    [Entry] bound to an [IntVar], whose [get()] raises on text that is
    no number. *)
Module Form.

Record t : Type := {
  selected_folder : string;
  username : string;
  password : string;
  descriptor : string;
  origin : string;
  avatar : string;
  list_id : string;
  list_id_var : string;
  list_dropdown_current : Z;
  list_options : list (string * string);
  warped : bool;
  name_as_userdata : bool;
  multi_face_policy : result Z
}.

End Form.

Record launch_env : Type := {
  path_exists : bool;                 (* os.path.exists(selected_folder) *)
  find_uploader_script : option string;
  worker : worker_env;
  worker_terminate_raises : option string
}.

Definition list_id_val (f : Form.t) : string :=
  if decide (Form.list_id_var f = "") then Form.list_id f
  else
    let idx := Form.list_dropdown_current f in
    if decide (0 <= idx < Z.of_nat (length (Form.list_options f)))%Z then
      match Form.list_options f !! Z.to_nat idx with
      | Some (lid, _) => lid
      | None => Form.list_id f
      end
    else Form.list_id f.

Definition launch_args (f : Form.t) (script : string) (policy : Z) : upload_args :=
  {| script_path := script;
     folder_path := Form.selected_folder f;
     username := Form.username f;
     password := Form.password f;
     source := Form.selected_folder f;
     descriptor := Form.descriptor f;
     origin := Form.origin f;
     avatar := Form.avatar f;
     list_id := list_id_val f;
     warped := Form.warped f;
     name_as_userdata := Form.name_as_userdata f;
     multi_face_policy := policy |}.

Definition new_job (args : upload_args) (env : launch_env) : Job.t :=
  {| Job.process := Process.start args (worker env) (worker_terminate_raises env);
     Job.queue := [];
     Job.folder := folder_path args;
     Job.list_id := list_id args;
     Job.status := Uploading |}.

Definition script_not_found : string :=
  "folder_uploader.py not found!
Please ensure it's in the same directory as this application.".

(** The method returns after a [showerror] dialog, or raises where
    [self.multi_face_policy.get()] does: the dict [args] is built
    before the queue and the process are created, so nothing has
    changed by then. *)
Definition _launch_upload_job (f : Form.t) (env : launch_env) (st : app)
    : result app :=
  if decide (Form.selected_folder f = "") then
    Ok (showerror "Please select a folder first!" st)
  else if negb (path_exists env) then
    Ok (showerror "Selected folder does not exist!" st)
  else
    match find_uploader_script env with
    | None => Ok (showerror script_not_found st)
    | Some script =>
        match Form.multi_face_policy f with
        | Raise e => Raise e
        | Ok policy =>
            let args := launch_args f script policy in
            let st1 := set_jobs (jobs st ++ [new_job args env]) st in
            let st2 := progress_bar_set true st1 in
            let st3 := status_var_set (running_text (length (jobs st2))) st2 in
            Ok (monitor_all_outputs (stop_btn_config true st3))
        end
    end.

(** ** The workers' side *)

(** The worker of a job performs its next [output_queue.put]. *)
Definition worker_put (j : Job.t) : option Job.t :=
  let p := Job.process j in
  if Process.is_alive p then
    match Process.to_put p with
    | m :: rest =>
        Some {| Job.process := {| Process.to_put := rest;
                                  Process.alive := true;
                                  Process.terminate_raises := Process.terminate_raises p |};
                Job.queue := Job.queue j ++ [m];
                Job.folder := Job.folder j;
                Job.list_id := Job.list_id j;
                Job.status := Job.status j |}
    | [] => None
    end
  else None.

(** The worker has returned from [run_upload_mp] and its process ends. *)
Definition worker_exit (j : Job.t) : option Job.t :=
  let p := Job.process j in
  if Process.is_alive p then
    match Process.to_put p with
    | [] => Some (Job.set_process {| Process.to_put := [];
                                     Process.alive := false;
                                     Process.terminate_raises := Process.terminate_raises p |} j)
    | _ :: _ => None
    end
  else None.

(** The worker of a job puts everything it still has to put, then ends. *)
Definition worker_finish (j : Job.t) : Job.t :=
  let p := Job.process j in
  if Process.is_alive p then
    {| Job.process := {| Process.to_put := [];
                         Process.alive := false;
                         Process.terminate_raises := Process.terminate_raises p |};
       Job.queue := Job.queue j ++ Process.to_put p;
       Job.folder := Job.folder j;
       Job.list_id := Job.list_id j;
       Job.status := Job.status j |}
  else j.

(** A job-level step applied to the job at index [i] of [self.jobs]. *)
Definition at_job (i : nat) (f : Job.t -> option Job.t) (st : app) : option app :=
  match jobs st !! i with
  | Some j =>
      match f j with
      | Some j' => Some (set_jobs (<[i := j']> (jobs st)) st)
      | None => None
      end
  | None => None
  end.

(** ** Runs of the whole system *)

(** One step of the system: a GUI action, a timer callback, or a step
    of one worker. *)
Inductive step : app -> app -> Prop :=
| step_launch st f env st' :
    _launch_upload_job f env st = Ok st' -> step st st'
| step_tick st :
    0 < after_pending st -> step st (tick st)
| step_stop_upload st :
    stop_btn st = true -> step st (stop_upload st)
| step_stop_selected st sel st' :
    stop_selected_job sel st = Ok st' -> step st st'
| step_worker_put st i st' :
    at_job i worker_put st = Some st' -> step st st'
| step_worker_exit st i st' :
    at_job i worker_exit st = Some st' -> step st st'.

Definition reachable (st : app) : Prop := rtc step init_app st.

(** ** Settings: [load_settings] *)

(** The values [json.load] returns; a float is kept as its text. *)
#[local] Unset Elimination Schemes.
Inductive pyvalue : Type :=
| PNone
| PBool (b : bool)
| PInt (n : Z)
| PFloat (repr : string)
| PStr (s : string)
| PList (l : list pyvalue)
| PDict (d : gmap string pyvalue).
#[local] Set Elimination Schemes.

(** [type(v).__name__]. *)
Definition type_name (v : pyvalue) : string :=
  match v with
  | PNone => "NoneType"
  | PBool _ => "bool"
  | PInt _ => "int"
  | PFloat _ => "float"
  | PStr _ => "str"
  | PList _ => "list"
  | PDict _ => "dict"
  end.

(** What the GUI finds when it looks for [uploader_settings.json]. *)
Inductive settings_file : Type :=
| Absent                      (* os.path.exists(...) is False *)
| Unparseable (e : string)    (* open(...) or json.load(f) raises *)
| Parsed (settings : pyvalue).

(** The Tk variables that [load_settings] writes.  A [StringVar] holds
    text, a [BooleanVar] a Boolean; an [IntVar] holds whatever was set. *)
Module Vars.

Record t : Type := {
  username : string;
  password : string;
  descriptor : string;
  origin : string;
  avatar : string;
  list_id : string;
  warped : bool;
  name_as_userdata : bool;
  multi_face_policy : pyvalue
}.

(** The values given in [__init__] and [create_config_fields]. *)
Definition defaults : t :=
  {| username := ""; password := ""; descriptor := "1";
     origin := "http://127.0.0.1:5000"; avatar := "1";
     list_id := "90936600-d44b-4717-9b33-d685faf00616";
     warped := false; name_as_userdata := false;
     multi_face_policy := PInt 1 |}.

End Vars.

(** A state/exception monad for GUI methods: the state is the Tk
    variables and the lines passed to [log_message]. *)
Module Gui.

Definition state : Type := (Vars.t * list string)%type.

Definition M (A : Type) : Type := state -> state * result A.

Definition ret {A} (a : A) : M A := fun s => (s, Ok a).

Definition raise {A} (e : string) : M A := fun s => (s, Raise e).

Definition bind {A B} (c : M A) (k : A -> M B) : M B :=
  fun s => match c s with
           | (s', Ok a) => k a s'
           | (s', Raise e) => (s', Raise e)
           end.

Definition try_except {A} (c : M A) (h : string -> M A) : M A :=
  fun s => match c s with
           | (s', Ok a) => (s', Ok a)
           | (s', Raise e) => h e s'
           end.

Definition get : M Vars.t := fun s => (s, Ok (fst s)).

Definition modify (f : Vars.t -> Vars.t) : M unit :=
  fun s => ((f (fst s), snd s), Ok tt).

Definition log_message (message : string) : M unit :=
  fun s => ((fst s, snd s ++ [message]), Ok tt).

Definition lift {A} (r : result A) : M A := fun s => (s, r).

End Gui.

Global Instance gui_ret : MRet Gui.M := @Gui.ret.
Global Instance gui_bind : MBind Gui.M :=
  fun A B k c => Gui.bind c k.

Section Settings.

(** Tcl's side of [tkinter]: how a non-string value is rendered when
    stored in a [StringVar], and which strings [Tcl_GetBoolean]
    accepts. *)
Variable tcl_string : pyvalue -> string.
Variable tcl_getboolean : string -> option bool.

(** [StringVar.set(v)] followed by [get()]. *)
Definition string_value (v : pyvalue) : string :=
  match v with
  | PStr s => s
  | _ => tcl_string v
  end.

(** [self._tk.getboolean(v)], used by [BooleanVar.set]. *)
Definition getboolean (v : pyvalue) : result bool :=
  match v with
  | PBool b => Ok b
  | PInt n => Ok (negb (n =? 0)%Z)
  | PStr s =>
      match tcl_getboolean s with
      | Some b => Ok b
      | None => Raise ("expected boolean value but got '" +:+ s +:+ "'")
      end
  | _ => Raise ("getboolean() argument must be str, not " +:+ type_name v)
  end.

(** [settings.get(key, dflt)]. *)
Definition settings_get (settings : pyvalue) (key : string) (dflt : pyvalue)
    : Gui.M pyvalue :=
  match settings with
  | PDict d => Gui.ret (default dflt (d !! key))
  | _ => Gui.raise ("'" +:+ type_name settings
                      +:+ "' object has no attribute 'get'")
  end.

Definition set_string (key : string) (field : Vars.t -> string)
    (update : string -> Vars.t -> Vars.t) (settings : pyvalue) : Gui.M unit :=
  vars ← Gui.get;
  v ← settings_get settings key (PStr (field vars));
  Gui.modify (update (string_value v)).

Definition set_boolean (key : string) (field : Vars.t -> bool)
    (update : bool -> Vars.t -> Vars.t) (settings : pyvalue) : Gui.M unit :=
  vars ← Gui.get;
  v ← settings_get settings key (PBool (field vars));
  b ← Gui.lift (getboolean v);
  Gui.modify (update b).

Definition with_username (s : string) (v : Vars.t) : Vars.t :=
  {| Vars.username := s; Vars.password := Vars.password v;
     Vars.descriptor := Vars.descriptor v; Vars.origin := Vars.origin v;
     Vars.avatar := Vars.avatar v; Vars.list_id := Vars.list_id v;
     Vars.warped := Vars.warped v;
     Vars.name_as_userdata := Vars.name_as_userdata v;
     Vars.multi_face_policy := Vars.multi_face_policy v |}.

Definition with_password (s : string) (v : Vars.t) : Vars.t :=
  {| Vars.username := Vars.username v; Vars.password := s;
     Vars.descriptor := Vars.descriptor v; Vars.origin := Vars.origin v;
     Vars.avatar := Vars.avatar v; Vars.list_id := Vars.list_id v;
     Vars.warped := Vars.warped v;
     Vars.name_as_userdata := Vars.name_as_userdata v;
     Vars.multi_face_policy := Vars.multi_face_policy v |}.

Definition with_descriptor (s : string) (v : Vars.t) : Vars.t :=
  {| Vars.username := Vars.username v; Vars.password := Vars.password v;
     Vars.descriptor := s; Vars.origin := Vars.origin v;
     Vars.avatar := Vars.avatar v; Vars.list_id := Vars.list_id v;
     Vars.warped := Vars.warped v;
     Vars.name_as_userdata := Vars.name_as_userdata v;
     Vars.multi_face_policy := Vars.multi_face_policy v |}.

Definition with_origin (s : string) (v : Vars.t) : Vars.t :=
  {| Vars.username := Vars.username v; Vars.password := Vars.password v;
     Vars.descriptor := Vars.descriptor v; Vars.origin := s;
     Vars.avatar := Vars.avatar v; Vars.list_id := Vars.list_id v;
     Vars.warped := Vars.warped v;
     Vars.name_as_userdata := Vars.name_as_userdata v;
     Vars.multi_face_policy := Vars.multi_face_policy v |}.

Definition with_avatar (s : string) (v : Vars.t) : Vars.t :=
  {| Vars.username := Vars.username v; Vars.password := Vars.password v;
     Vars.descriptor := Vars.descriptor v; Vars.origin := Vars.origin v;
     Vars.avatar := s; Vars.list_id := Vars.list_id v;
     Vars.warped := Vars.warped v;
     Vars.name_as_userdata := Vars.name_as_userdata v;
     Vars.multi_face_policy := Vars.multi_face_policy v |}.

Definition with_list_id (s : string) (v : Vars.t) : Vars.t :=
  {| Vars.username := Vars.username v; Vars.password := Vars.password v;
     Vars.descriptor := Vars.descriptor v; Vars.origin := Vars.origin v;
     Vars.avatar := Vars.avatar v; Vars.list_id := s;
     Vars.warped := Vars.warped v;
     Vars.name_as_userdata := Vars.name_as_userdata v;
     Vars.multi_face_policy := Vars.multi_face_policy v |}.

Definition with_warped (b : bool) (v : Vars.t) : Vars.t :=
  {| Vars.username := Vars.username v; Vars.password := Vars.password v;
     Vars.descriptor := Vars.descriptor v; Vars.origin := Vars.origin v;
     Vars.avatar := Vars.avatar v; Vars.list_id := Vars.list_id v;
     Vars.warped := b;
     Vars.name_as_userdata := Vars.name_as_userdata v;
     Vars.multi_face_policy := Vars.multi_face_policy v |}.

Definition with_name_as_userdata (b : bool) (v : Vars.t) : Vars.t :=
  {| Vars.username := Vars.username v; Vars.password := Vars.password v;
     Vars.descriptor := Vars.descriptor v; Vars.origin := Vars.origin v;
     Vars.avatar := Vars.avatar v; Vars.list_id := Vars.list_id v;
     Vars.warped := Vars.warped v;
     Vars.name_as_userdata := b;
     Vars.multi_face_policy := Vars.multi_face_policy v |}.

Definition with_multi_face_policy (p : pyvalue) (v : Vars.t) : Vars.t :=
  {| Vars.username := Vars.username v; Vars.password := Vars.password v;
     Vars.descriptor := Vars.descriptor v; Vars.origin := Vars.origin v;
     Vars.avatar := Vars.avatar v; Vars.list_id := Vars.list_id v;
     Vars.warped := Vars.warped v;
     Vars.name_as_userdata := Vars.name_as_userdata v;
     Vars.multi_face_policy := p |}.

(** The nine [self.<var>.set(settings.get(...))] lines and the
    success message. *)
Definition apply_settings (settings : pyvalue) : Gui.M unit :=
  set_string "username" Vars.username with_username settings;;
  set_string "password" Vars.password with_password settings;;
  set_string "descriptor" Vars.descriptor with_descriptor settings;;
  set_string "origin" Vars.origin with_origin settings;;
  set_string "avatar" Vars.avatar with_avatar settings;;
  set_string "list_id" Vars.list_id with_list_id settings;;
  set_boolean "warped" Vars.warped with_warped settings;;
  set_boolean "name_as_userdata" Vars.name_as_userdata
    with_name_as_userdata settings;;
  v ← settings_get settings "multi_face_policy" (PInt 1);
  Gui.modify (with_multi_face_policy v);;
  Gui.log_message "Settings for Gelecek Folder Uploader loaded successfully".

(** The body of the [try] block. *)
Definition load_settings_body (file : settings_file) : Gui.M unit :=
  match file with
  | Absent => Gui.ret tt
  | Unparseable e => Gui.raise e
  | Parsed settings => apply_settings settings
  end.

(** [load_settings(self)]. *)
Definition load_settings (file : settings_file) : Gui.M unit :=
  Gui.try_except (load_settings_body file)
    (fun e => Gui.log_message ("Could not load settings: " +:+ e)).

End Settings.

(** ** Definitions used in the statements *)

(** The lines the read loop forwards: up to the first empty string. *)
Fixpoint forwarded (lines : list string) : list message :=
  match lines with
  | [] => []
  | line :: rest =>
      if decide (line = "") then [] else output (strip line) :: forwarded rest
  end.

Definition starting_line (args : upload_args) : string :=
  "Starting upload from: " +:+ folder_path args.

Definition command_line (args : upload_args) (env : worker_env) : string :=
  "Command: " +:+ join " " (cmd (sys_executable env) args).

(** The status tuple for a return code. *)
Definition status_of_returncode (returncode : Z) : string :=
  if decide (returncode = 0%Z) then status_succeeded else status_failed returncode.

(** What follows the two announcements, before the final tuple. *)
Definition after_popen (p : popen_outcome) : list message :=
  match p with
  | PopenRaises e => [error ("Error running upload: " +:+ e)]
  | Started lines (ReadEOF returncode) =>
      forwarded lines ++ [status (status_of_returncode returncode)]
  | Started lines (ReadRaises e) =>
      forwarded lines ++ [error ("Error running upload: " +:+ e)]
  end.

(** Sample inputs: one folder, a child that prints one line and exits
    with the given return code. *)
Module Sample.

Definition form : Form.t :=
  {| Form.selected_folder := "/a"; Form.username := "u";
     Form.password := "pw"; Form.descriptor := "1";
     Form.origin := "http://127.0.0.1:5000"; Form.avatar := "1";
     Form.list_id := "L"; Form.list_id_var := "";
     Form.list_dropdown_current := (-1)%Z; Form.list_options := [];
     Form.warped := true; Form.name_as_userdata := false;
     Form.multi_face_policy := Ok 1%Z |}.

Definition args : upload_args := launch_args form "/opt/folder_uploader.py" 1.

Definition wenv (returncode : Z) : worker_env :=
  {| sys_executable := "python3"; os_posix := true; access_x_ok := true;
     chmod_raises := None;
     popen := Started ["1 file uploaded"] (ReadEOF returncode) |}.

Definition lenv (returncode : Z) : launch_env :=
  {| path_exists := true;
     find_uploader_script := Some "/opt/folder_uploader.py";
     worker := wenv returncode; worker_terminate_raises := None |}.

End Sample.

(** The flag set of the external command. *)
Definition required_flags : list string :=
  [ "--login"; "--password"; "--source"; "--warped"; "--name_as_userdata";
    "--descriptor"; "--origin"; "--avatar"; "--list_id";
    "--multi_face_policy"; "--basic_attr"; "--score_threshold";
    "--list_linked" ].

(** An argument vector read as flag/value pairs, the way the callee's
    parser consumes it. *)
Fixpoint options (argv : list string) : list (string * string) :=
  match argv with
  | flag :: value :: rest => (flag, value) :: options rest
  | _ => []
  end.

(** The value given for a flag, if the flag occurs. *)
Definition option_value (flag : string) (opts : list (string * string)) : option string :=
  snd <$> List.find (fun o => String.eqb (fst o) flag) opts.

(** How often a flag occurs. *)
Definition occurrences (flag : string) (opts : list (string * string)) : nat :=
  length (List.filter (fun o => String.eqb (fst o) flag) opts).

(** What one poll does to a job. *)
Definition polled (job : Job.t) : Job.t := fst (drain job init_app).

(** The status a job has after the tuples [q] were handled. *)
Definition status_after (q : list message) (s : string) : string :=
  foldl (fun s m => match m with
                    | status msg => msg
                    | finished => Finished
                    | _ => s
                    end) s q.

Definition alive_job (j : Job.t) : bool := Process.is_alive (Job.process j).

(** Sample runs of the system, from the initial state. *)
Module Run.

(** One job launched; its worker has not put anything yet. *)
Definition launched (returncode : Z) : app :=
  match _launch_upload_job Sample.form (Sample.lenv returncode) init_app with
  | Ok st => st
  | Raise _ => init_app
  end.

(** The worker of job 0 performs [n] puts. *)
Definition puts (n : nat) (st : app) : app :=
  Nat.iter n (fun s => default s (at_job 0 worker_put s)) st.

(** The worker of job 0 ends. *)
Definition exits (st : app) : app := default st (at_job 0 worker_exit st).

Definition selected (sel : list nat) (st : app) : app :=
  match stop_selected_job sel st with
  | Ok st' => st'
  | Raise _ => st
  end.

Definition status_of_job (i : nat) (st : app) : option string :=
  Job.status <$> jobs st !! i.

Definition alive_of_job (i : nat) (st : app) : option bool :=
  alive_job <$> jobs st !! i.

Definition queue_of_job (i : nat) (st : app) : option (list message) :=
  Job.queue <$> jobs st !! i.

End Run.

(** The status line after the tuples [q] were handled. *)
Definition status_var_after (q : list message) (sv : string) : string :=
  foldl (fun sv m => match m with status msg => msg | _ => sv end) sv q.

(** A job whose worker has run [run_upload_mp] to its end and exited,
    with nothing drained yet. *)
Definition completed_job (args : upload_args) (env : launch_env) : Job.t :=
  worker_finish (new_job args env).

(** A job after a successful [terminate()] and the write of
    ['Stopped']. *)
Definition stopped_job (job : Job.t) : Job.t :=
  {| Job.process :=
       {| Process.to_put := Process.to_put (Job.process job);
          Process.alive := false;
          Process.terminate_raises := Process.terminate_raises (Job.process job) |};
     Job.queue := Job.queue job;
     Job.folder := Job.folder job;
     Job.list_id := Job.list_id job;
     Job.status := Stopped |}.

(** What either cancel path does to one job: it acts on a job whose
    worker is alive and whose [terminate()] does not raise. *)
Definition cancelled (job : Job.t) : Job.t :=
  if alive_job job then
    match Process.terminate_raises (Job.process job) with
    | None => stopped_job job
    | Some _ => job
    end
  else job.

(** What can happen to a tracked job: a poll drains its queue, a cancel
    reaches it, its worker puts its next tuple, its worker ends. *)
Inductive job_op : Type := Poll | Cancel | Put | Exit.

Definition apply_op (op : job_op) (j : Job.t) : Job.t :=
  match op with
  | Poll => fst (drain j init_app)
  | Cancel => fst (stop_one j)
  | Put => default j (worker_put j)
  | Exit => default j (worker_exit j)
  end.

Definition run_ops (ops : list job_op) (j : Job.t) : Job.t :=
  foldl (fun j op => apply_op op j) j ops.

(** The status texts the worker can send. *)
Definition runner_status (s : string) : Prop :=
  exists returncode, s = status_of_returncode returncode.

Definition from_runner (m : message) : Prop :=
  match m with
  | status s => runner_status s
  | _ => True
  end.

(** Every tuple in the job's queue, or still to be put, is the worker's. *)
Definition well_formed (j : Job.t) : Prop :=
  Forall from_runner (Job.queue j ++ Process.to_put (Job.process j)).

(** The values [job['status']] takes. *)
Definition valid_status (s : string) : Prop :=
  s = Uploading \/ s = Stopped \/ s = Finished \/ runner_status s.

Definition launched_job (j : Job.t) : Prop :=
  exists args env ops, j = run_ops ops (new_job args env).

(** A sample of Tcl's conversions and a sample settings file. *)
Module SampleSettings.

Definition tcl_string (v : pyvalue) : string :=
  match v with
  | PInt n => str_int n
  | PBool true => "1"
  | PBool false => "0"
  | PFloat repr => repr
  | _ => ""
  end.

Definition tcl_getboolean (s : string) : option bool :=
  if decide (s ∈ ["1"; "true"; "yes"; "on"]) then Some true
  else if decide (s ∈ ["0"; "false"; "no"; "off"]) then Some false
  else None.

(** [{"username": "bob", "warped": "maybe", "avatar": 7}] *)
Definition settings : gmap string pyvalue :=
  <["username" := PStr "bob"]>
    (<["warped" := PStr "maybe"]> (<["avatar" := PInt 7]> ∅)).

End SampleSettings.

(** ** Further definitions used in the statements *)

Definition is_error (m : message) : bool :=
  match m with error _ => true | _ => false end.

(** The line [monitor_all_outputs] passes to [log_message] for a tuple
    taken from the queue of a job in [folder]; none for the final
    tuple. *)
Definition log_line (folder : string) (m : message) : option string :=
  match m with
  | output msg => Some ("[" +:+ folder +:+ "] " +:+ msg)
  | error msg => Some ("ERROR [" +:+ folder +:+ "]: " +:+ msg)
  | status msg => Some ("STATUS [" +:+ folder +:+ "]: " +:+ msg)
  | finished => None
  end.

(** The lines a poll logs for a job: one per tuple in its queue. *)
Definition job_log (j : Job.t) : list string :=
  omap (log_line (Job.folder j)) (Job.queue j).

(** An output line as logged: ["[" folder "] " msg]. *)
Definition tagged (folder msg : string) : string :=
  "[" +:+ folder +:+ "] " +:+ msg.

(** A job a cancel acts on: its worker is alive and [terminate()] does
    not raise. *)
Definition stoppable (j : Job.t) : bool :=
  alive_job j
  && match Process.terminate_raises (Job.process j) with
     | None => true
     | Some _ => false
     end.

(** What a cancel leaves alone in a job: its queue, folder and list id. *)
Definition same_events (j j' : Job.t) : Prop :=
  Job.queue j' = Job.queue j
  /\ Job.folder j' = Job.folder j
  /\ Job.list_id j' = Job.list_id j
  /\ Process.to_put (Job.process j') = Process.to_put (Job.process j).

(** ** Settings: [save_settings] *)

(** What [open('uploader_settings.json', 'w')] and [json.dump] do. *)
Inductive write_outcome : Type :=
| Written
| WriteRaises (e : string).

(** What [save_settings] leaves behind besides the log: the object
    written to the file, if any, and the title and text of the message
    box it shows. *)
Record save_report : Type := {
  written : option (gmap string pyvalue);
  dialog : string * string
}.

(** The dict [settings] of [save_settings]; [n] is what
    [self.multi_face_policy.get()] returned. *)
Definition settings_of (vars : Vars.t) (n : Z) : gmap string pyvalue :=
  <["username" := PStr (Vars.username vars)]>
  (<["password" := PStr (Vars.password vars)]>
  (<["descriptor" := PStr (Vars.descriptor vars)]>
  (<["origin" := PStr (Vars.origin vars)]>
  (<["avatar" := PStr (Vars.avatar vars)]>
  (<["list_id" := PStr (Vars.list_id vars)]>
  (<["warped" := PBool (Vars.warped vars)]>
  (<["name_as_userdata" := PBool (Vars.name_as_userdata vars)]>
  (<["multi_face_policy" := PInt n]> ∅)))))))).

(** The keys of the settings file. *)
Definition settings_keys : list string :=
  ["username"; "password"; "descriptor"; "origin"; "avatar"; "list_id";
   "warped"; "name_as_userdata"; "multi_face_policy"].

Section SaveSettings.

(** Tcl's reading of an [IntVar] that does not hold a Python int. *)
Variable tcl_getint : pyvalue -> result Z.

(** [IntVar.get()]. *)
Definition intvar_get (v : pyvalue) : result Z :=
  match v with
  | PInt n => Ok n
  | _ => tcl_getint v
  end.

(** [save_settings(self)]: the dict is built before the [try], so an
    exception of [IntVar.get()] is not caught. *)
Definition save_settings (w : write_outcome) : Gui.M save_report :=
  vars ← Gui.get;
  n ← Gui.lift (intvar_get (Vars.multi_face_policy vars));
  let settings := settings_of vars n in
  Gui.try_except
    (match w with
     | Written =>
         Gui.log_message "Settings saved successfully";;
         mret {| written := Some settings;
                 dialog := ("Success",
                            "Settings for Gelecek Folder Uploader saved successfully!") |}
     | WriteRaises e => Gui.raise e
     end)
    (fun e =>
       Gui.log_message ("Error saving settings: " +:+ e);;
       mret {| written := None;
               dialog := ("Error", "Failed to save settings: " +:+ e) |}).

End SaveSettings.

(** ** Looking for the uploader script: [find_uploader_script] *)

Module Script.
Section Find.

(** [os.path.dirname(os.path.abspath(__file__))], [os.path.join],
    [os.path.abspath], [os.path.isfile] and [os.name == 'posix']. *)
Variable current_dir : string.
Variable path_join : list string -> string.
Variable abspath : string -> string.
Variable isfile : string -> bool.
Variable posix : bool.

Definition luna_script : string :=
  "/var/lib/luna/current/extras/utils/folder_uploader.py".

(** The list [common_paths]. *)
Definition common_paths : list string :=
  [ path_join [current_dir; "folder_uploader.py"];
    path_join [current_dir; ".."; "folder_uploader.py"];
    path_join [current_dir; "../folder_uploader.py"];
    "folder_uploader.py";
    "./folder_uploader.py";
    "../folder_uploader.py";
    luna_script ]
  ++ (if posix then [luna_script] else []).

(** [find_uploader_script(self)]; the attempts to make the script
    executable do not change what is returned. *)
Definition find_uploader_script : option string :=
  let script_path := path_join [current_dir; "folder_uploader.py"] in
  if isfile script_path then Some script_path
  else abspath <$> List.find isfile common_paths.

End Find.
End Script.

(** A run of job-level steps in which no cancel occurs. *)
Definition never_cancelled (ops : list job_op) : Prop := Cancel ∉ ops.

(** A job that will still report its end, or has: the final tuple is
    the last thing in its queue or still to be put, or everything was
    put and drained and the status is [Finished]; and a worker that is
    not alive has put everything. *)
Definition reports_end (j : Job.t) : Prop :=
  (alive_job j = false -> Process.to_put (Job.process j) = [])
  /\ (last (Job.queue j ++ Process.to_put (Job.process j)) = Some finished
      \/ (Job.queue j = [] /\ Process.to_put (Job.process j) = []
          /\ Job.status j = Finished)).

(** A stopped job that will never report its end: its worker is not
    alive, the final tuple is not in its queue, and its status is not
    [Finished]. *)
Definition lingering (j : Job.t) : Prop :=
  alive_job j = false
  /\ (finished ∉ Job.queue j)
  /\ Job.status j <> Finished
  /\ Forall from_runner (Job.queue j).

(** ** The list dropdown: [fetch_lists] and [on_list_select] *)

Module Lists.

(** What the background thread meets: [import requests] fails;
    [requests.get] or [resp.json()] raises; or the JSON value. *)
Inductive response : Type :=
| ImportFails
| RequestRaises
| Json (data : pyvalue).

(** The dropdown and the variables behind it. *)
Record t : Type := {
  list_options : list (pyvalue * pyvalue);   (* (list_id, user_data) *)
  values : list string;                      (* self.list_dropdown['values'] *)
  list_id_var : string;                      (* the text shown *)
  list_id : string                           (* self.list_id *)
}.

(** The state [create_config_fields] sets up before the thread runs. *)
Definition loading : t :=
  {| list_options := []; values := ["Loading..."];
     list_id_var := "Loading...";
     list_id := Vars.list_id Vars.defaults |}.

(** [for item in v]: the items, or nothing when [v] is not iterable. *)
Definition iterate (v : pyvalue) : option (list pyvalue) :=
  match v with
  | PList l => Some l
  | PStr s => Some ((fun c => PStr (String c EmptyString)) <$> list_ascii_of_string s)
  | PDict d => Some ((fun kv => PStr (fst kv)) <$> map_to_list d)
  | _ => None
  end.

(** [item[key]] for a string key: only a dict with that key has one. *)
Definition getitem (item : pyvalue) (key : string) : option pyvalue :=
  match item with
  | PDict d => d !! key
  | _ => None
  end.

Section Fetch.

(** [format(v, '')] inside an f-string, for a value that is not a
    string; and Tcl's rendering of a value stored in a [StringVar]. *)
Variable py_format : pyvalue -> string.
Variable tcl_string : pyvalue -> string.

Definition formatted (v : pyvalue) : string :=
  match v with
  | PStr s => s
  | _ => py_format v
  end.

(** [(item["list_id"], item["user_data"])]. *)
Definition option_of (item : pyvalue) : option (pyvalue * pyvalue) :=
  lid ← getitem item "list_id";
  name ← getitem item "user_data";
  Some (lid, name).

(** [f"{name} ({lid})"]. *)
Definition shown (o : pyvalue * pyvalue) : string :=
  formatted (snd o) +:+ " (" +:+ formatted (fst o) +:+ ")".

(** The body of the [try] block, from [data = resp.json()] on; [None]
    when it raises. *)
Definition fetched (data : pyvalue) (s : t) : option t :=
  lists ← match data with
          | PDict d => Some (default (PList []) (d !! "lists"))
          | _ => None
          end;
  items ← iterate lists;
  options ← mapM option_of items;
  match options with
  | [] =>
      Some {| list_options := []; values := ["No lists found"];
              list_id_var := ""; list_id := list_id s |}
  | first :: _ =>
      Some {| list_options := options; values := shown <$> options;
              list_id_var := shown first;
              list_id := string_value tcl_string (fst first) |}
  end.

(** The [except Exception] branch. *)
Definition failed (s : t) : t :=
  {| list_options := list_options s; values := ["Failed to load lists"];
     list_id_var := "Failed to load lists"; list_id := list_id s |}.

(** [fetch_lists()]. *)
Definition fetch_lists (r : response) (s : t) : t :=
  match r with
  | ImportFails => s
  | RequestRaises => failed s
  | Json data =>
      match fetched data s with
      | Some s' => s'
      | None => failed s
      end
  end.

(** [on_list_select(event)]; [idx] is [self.list_dropdown.current()]. *)
Definition on_list_select (idx : Z) (s : t) : t :=
  if decide (0 <= idx < Z.of_nat (length (list_options s)))%Z then
    match list_options s !! Z.to_nat idx with
    | Some o =>
        {| list_options := list_options s; values := values s;
           list_id_var := list_id_var s;
           list_id := string_value tcl_string (fst o) |}
    | None => s
    end
  else s.

End Fetch.
End Lists.

(** * Properties *)

(** ** Strings *)

Lemma str_int_inj (a b : Z) : str_int a = str_int b -> a = b.
Proof.
  unfold str_int. intros H.
  assert (Hd : Z.to_int a = Z.to_int b).
  { apply (f_equal NilEmpty.int_of_string) in H.
    rewrite !NilEmpty.isi in H. congruence. }
  apply (f_equal Z.of_int) in Hd. by rewrite !DecimalZ.of_to in Hd.
Qed.

Lemma status_failed_inj (a b : Z) : status_failed a = status_failed b -> a = b.
Proof.
  unfold status_failed. intros H. apply str_int_inj.
  by apply (inj (String.app _)) in H.
Qed.

(** Two texts that differ within a literal prefix. *)
Ltac literal_neq :=
  let H := fresh in
  intros H; cbv [status_failed String.append] in H; discriminate H.

Lemma status_failed_not_succeeded (rc : Z) : status_failed rc <> status_succeeded.
Proof. literal_neq. Qed.

Lemma status_failed_not_Uploading (rc : Z) : status_failed rc <> Uploading.
Proof. literal_neq. Qed.

Lemma status_failed_not_Finished (rc : Z) : status_failed rc <> Finished.
Proof. literal_neq. Qed.

Lemma status_failed_not_Stopped (rc : Z) : status_failed rc <> Stopped.
Proof. literal_neq. Qed.

(** [strip] on Unicode whitespace: a no-break space (C2 A0) before and
    a next-line character (C2 85) and a line feed after the text go,
    the space inside stays; so do an em space (E2 80 83) and an
    ideographic space (E3 80 80); the bytes C3 A0 of a letter and those
    of a zero-width space (E2 80 8B) stay. *)
Lemma strip_unicode_whitespace :
  strip (of_bytes [194; 160] +:+ "x y" +:+ of_bytes [194; 133; 10]) = "x y"
  /\ strip (of_bytes [226; 128; 131] +:+ "x" +:+ of_bytes [227; 128; 128]) = "x"
  /\ strip (" " +:+ of_bytes [195; 160; 10]) = of_bytes [195; 160]
  /\ strip (of_bytes [226; 128; 139] +:+ "x") = of_bytes [226; 128; 139] +:+ "x".
Proof. repeat split; vm_compute; reflexivity. Qed.

Lemma string_app_assoc (a b c : string) : (a +:+ b) +:+ c = a +:+ b +:+ c.
Proof. induction a as [|x a IH]; simpl; [done | by rewrite IH]. Qed.

Lemma string_app_nil_r (s : string) : s +:+ "" = s.
Proof. induction s as [|c s IH]; simpl; [done | by rewrite IH]. Qed.

Lemma substring_of_refl (s : string) : substring_of s s.
Proof. exists "", "". simpl. by rewrite string_app_nil_r. Qed.

Lemma substring_of_app_l (n pre s : string) :
  substring_of n s -> substring_of n (pre +:+ s).
Proof.
  intros (a & b & ->). exists (pre +:+ a), b. by rewrite string_app_assoc.
Qed.

Lemma substring_of_app_r (n s post : string) :
  substring_of n s -> substring_of n (s +:+ post).
Proof.
  intros (a & b & ->). exists a, (b +:+ post). by rewrite !string_app_assoc.
Qed.

Lemma substring_of_join (n sep : string) (parts : list string) :
  n ∈ parts -> substring_of n (join sep parts).
Proof.
  unfold join. induction parts as [|x parts IH]; intros Hin.
  - by apply elem_of_nil in Hin.
  - apply elem_of_cons in Hin as [-> | Hin].
    + destruct parts as [|y parts]; simpl.
      * apply substring_of_refl.
      * apply substring_of_app_r, substring_of_refl.
    + destruct parts as [|y parts]; [by apply elem_of_nil in Hin |].
      change (String.concat sep (x :: y :: parts))
        with (x +:+ sep +:+ String.concat sep (y :: parts)).
      by apply substring_of_app_l, substring_of_app_l, IH.
Qed.

(** ** The worker's trace *)

Lemma read_lines_spec (lines : list string) :
  read_lines lines = (forwarded lines, Ok ()).
Proof.
  induction lines as [|line rest IH]; simpl; [done |].
  destruct (decide (line = "")); [done |].
  unfold mbind, worker_bind. simpl. by rewrite IH.
Qed.

Lemma forwarded_outputs (lines : list string) :
  Forall (fun m => is_output m = true) (forwarded lines).
Proof.
  induction lines as [|line rest IH]; simpl; [constructor |].
  destruct (decide (line = "")); by constructor.
Qed.

Lemma chmod_script_spec (env : worker_env) : chmod_script env = ([], Ok ()).
Proof.
  unfold chmod_script.
  destruct (os_posix env && negb (access_x_ok env)); [|done].
  by destruct (chmod_raises env).
Qed.

Lemma before_popen_spec (args : upload_args) (env : worker_env) :
  before_popen args env =
    ([output (starting_line args); output (command_line args env)], Ok ()).
Proof.
  unfold before_popen, mbind, worker_bind. simpl.
  by rewrite chmod_script_spec.
Qed.

Lemma emitted_spec (args : upload_args) (env : worker_env) :
  emitted args env =
    output (starting_line args) :: output (command_line args env)
      :: after_popen (popen env) ++ [finished].
Proof.
  unfold emitted, run_upload_mp, run_upload_body, mbind, worker_bind.
  rewrite before_popen_spec.
  destruct (popen env) as [e | lines [returncode | e]]; simpl; [done | |].
  - unfold supervise, mbind, worker_bind. rewrite read_lines_spec. simpl.
    unfold status_of_returncode.
    destruct (decide (returncode = 0%Z)); simpl;
      by rewrite ?app_nil_r, <- ?app_assoc.
  - unfold supervise, mbind, worker_bind. rewrite read_lines_spec. simpl.
    by rewrite ?app_nil_r, <- ?app_assoc.
Qed.

Lemma run_upload_mp_returns (args : upload_args) (env : worker_env) :
  snd (run_upload_mp args env) = Ok ().
Proof.
  unfold run_upload_mp, run_upload_body, mbind, worker_bind.
  rewrite before_popen_spec.
  destruct (popen env) as [e | lines [returncode | e]]; simpl; [done | |].
  - unfold supervise, mbind, worker_bind. rewrite read_lines_spec. simpl.
    by destruct (decide (returncode = 0%Z)).
  - unfold supervise, mbind, worker_bind. by rewrite read_lines_spec.
Qed.

Lemma after_popen_no_finished (p : popen_outcome) : finished ∉ after_popen p.
Proof.
  assert (Hfw : forall lines, finished ∉ forwarded lines).
  { intros lines Hin.
    pose proof (forwarded_outputs lines) as Hall.
    rewrite Forall_forall in Hall. by apply Hall in Hin. }
  destruct p as [e | lines [returncode | e]]; simpl.
  - by intros [=]%list_elem_of_singleton.
  - rewrite elem_of_app, list_elem_of_singleton. intros [H | [=]]. by apply Hfw in H.
  - rewrite elem_of_app, list_elem_of_singleton. intros [H | [=]]. by apply Hfw in H.
Qed.

Lemma filter_status_outputs (l : list message) :
  Forall (fun m => is_output m = true) l -> List.filter is_status l = [].
Proof.
  induction 1 as [|m l Hm _ IH]; simpl; [done |].
  destruct m; simpl in *; try done.
Qed.

(** ** The job runner *)

(** C1, as the code has it.  When the external process starts and its
    output is read to the end, the worker puts exactly one status tuple,
    after the forwarded output and directly before the final tuple: the
    success text when the return code is 0, otherwise the failure text,
    from which the return code can be read back. *)
Theorem run_upload_mp_one_status_after_exit
    (args : upload_args) (env : worker_env) (lines : list string) (returncode : Z) :
  popen env = Started lines (ReadEOF returncode) ->
  exists outs msg,
    emitted args env = outs ++ [status msg; finished]
    /\ Forall (fun m => is_output m = true) outs
    /\ List.filter is_status (emitted args env) = [status msg]
    /\ (returncode = 0%Z -> msg = status_succeeded)
    /\ (returncode <> 0%Z ->
        msg = status_failed returncode /\ msg <> status_succeeded
        /\ forall rc', status_failed rc' = msg -> rc' = returncode).
Proof.
  intros Hp.
  exists (output (starting_line args) :: output (command_line args env)
            :: forwarded lines), (status_of_returncode returncode).
  assert (Hall : Forall (fun m => is_output m = true)
                   (output (starting_line args) :: output (command_line args env)
                      :: forwarded lines)).
  { do 2 (constructor; [done |]). apply forwarded_outputs. }
  assert (Heq : emitted args env =
                (output (starting_line args) :: output (command_line args env)
                   :: forwarded lines)
                ++ [status (status_of_returncode returncode); finished]).
  { rewrite emitted_spec, Hp. simpl. by rewrite <- app_assoc. }
  split; [done |]. split; [done |]. split.
  - rewrite Heq, List.filter_app, (filter_status_outputs _ Hall). done.
  - unfold status_of_returncode. split; intros Hrc.
    + by destruct (decide (returncode = 0%Z)).
    + destruct (decide (returncode = 0%Z)); [done |].
      split; [done |]. split; [apply status_failed_not_succeeded |].
      intros rc'. apply status_failed_inj.
Qed.

Lemma run_upload_mp_one_status_after_exit_witness :
  exists outs msg,
    emitted Sample.args (Sample.wenv 3) = outs ++ [status msg; finished]
    /\ Forall (fun m => is_output m = true) outs
    /\ List.filter is_status (emitted Sample.args (Sample.wenv 3)) = [status msg]
    /\ (3%Z = 0%Z -> msg = status_succeeded)
    /\ (3%Z <> 0%Z ->
        msg = status_failed 3 /\ msg <> status_succeeded
        /\ forall rc', status_failed rc' = msg -> rc' = 3%Z).
Proof.
  exact (run_upload_mp_one_status_after_exit Sample.args (Sample.wenv 3)
           ["1 file uploaded"] 3 eq_refl).
Defined.

(** C1, as stated, fails.  The child starts, prints a line and then a
    byte that is no UTF-8, and exits: reading its output raises, the
    worker never reaches [proc.wait()], and it puts an error tuple and
    no status tuple. *)
Lemma undecodable_output_no_status :
  let env := {| sys_executable := "python3"; os_posix := true;
                access_x_ok := true; chmod_raises := None;
                popen := Started ["1 file uploaded"]
                           (ReadRaises "'utf-8' codec can't decode byte 0xff in position 0: invalid start byte") |} in
  emitted Sample.args env
  = [output "Starting upload from: /a";
     output ("Command: " +:+ join " " (cmd "python3" Sample.args));
     output "1 file uploaded";
     error "Error running upload: 'utf-8' codec can't decode byte 0xff in position 0: invalid start byte";
     finished]
  /\ List.filter is_status (emitted Sample.args env) = [].
Proof. intros env. split; vm_compute; reflexivity. Qed.

(** C2.  Whatever [Popen] and the child do (the child exits with 0,
    exits with another code, reading its output raises, or it cannot be
    started), a run of the worker returns normally and the last tuple it
    puts is the final tuple, which occurs nowhere before. *)
Theorem run_upload_mp_finished_last (args : upload_args) (env : worker_env) :
  exists before,
    run_upload_mp args env = (before ++ [finished], Ok ())
    /\ finished ∉ before.
Proof.
  exists (output (starting_line args) :: output (command_line args env)
            :: after_popen (popen env)).
  split.
  - pose proof (emitted_spec args env) as He.
    pose proof (run_upload_mp_returns args env) as Hr.
    unfold emitted, Worker.puts_of in He.
    destruct (run_upload_mp args env) as [puts r]. simpl in *. by subst.
  - rewrite !elem_of_cons. intros [[=] | [[=] | H]].
    by apply after_popen_no_finished in H.
Qed.


(** ** The command line *)


(** ** The poll loop, job by job *)

Lemma foldl_on_message (q : list message) (job : Job.t) (st : app) :
  fst (foldl (fun acc m => on_message m acc) (job, st) q)
  = Job.set_status (status_after q (Job.status job)) job.
Proof.
  revert job st. induction q as [|m q IH]; intros job st; simpl.
  - by destruct job.
  - destruct m; simpl; rewrite IH; by destruct job.
Qed.

Lemma drain_job (job : Job.t) (st : app) :
  fst (drain job st)
  = Job.set_queue [] (Job.set_status (status_after (Job.queue job) (Job.status job)) job).
Proof.
  unfold drain.
  pose proof (foldl_on_message (Job.queue job) job st) as H.
  destruct (foldl _ _ _) as [job' st']. simpl in *. by subst.
Qed.

Lemma drain_polled (job : Job.t) (st : app) : fst (drain job st) = polled job.
Proof. unfold polled. by rewrite !drain_job. Qed.

Lemma polled_spec (job : Job.t) :
  polled job
  = Job.set_queue [] (Job.set_status (status_after (Job.queue job) (Job.status job)) job).
Proof. apply drain_job. Qed.

Lemma drain_keeps_widgets (job : Job.t) (st : app) :
  jobs (snd (drain job st)) = jobs st
  /\ after_pending (snd (drain job st)) = after_pending st
  /\ progress_bar (snd (drain job st)) = progress_bar st
  /\ stop_btn (snd (drain job st)) = stop_btn st
  /\ dialogs (snd (drain job st)) = dialogs st.
Proof.
  unfold drain.
  assert (H : forall q j s,
             let r := snd (foldl (fun acc m => on_message m acc) (j, s) q) in
             jobs r = jobs s /\ after_pending r = after_pending s
             /\ progress_bar r = progress_bar s /\ stop_btn r = stop_btn s
             /\ dialogs r = dialogs s).
  { induction q as [|m q IH]; intros j s; simpl; [done |].
    destruct m; simpl;
      match goal with
      | |- context [foldl _ (?j', ?s') q] => destruct (IH j' s') as (?&?&?&?&?)
      end; simpl in *; repeat split; congruence. }
  specialize (H (Job.queue job) job st).
  destruct (foldl _ _ _) as [job' st']. simpl in *. done.
Qed.

Lemma monitor_loop_spec (js : list Job.t) (st : app) (b : bool) :
  fst (fst (monitor_loop js st b)) = polled <$> js
  /\ snd (monitor_loop js st b) = b || existsb alive_job js
  /\ after_pending (snd (fst (monitor_loop js st b))) = after_pending st
  /\ progress_bar (snd (fst (monitor_loop js st b))) = progress_bar st
  /\ stop_btn (snd (fst (monitor_loop js st b))) = stop_btn st
  /\ dialogs (snd (fst (monitor_loop js st b))) = dialogs st.
Proof.
  revert st b. induction js as [|job rest IH]; intros st b; simpl.
  - by rewrite orb_false_r.
  - pose proof (drain_polled job st) as Hd.
    pose proof (drain_keeps_widgets job st) as (_ & Ha & Hp & Hs & Hdl).
    destruct (drain job st) as [job' st']. simpl in *. subst job'.
    set (b' := if Process.is_alive (Job.process (polled job)) then true else b).
    destruct (IH st' b') as (H1 & H2 & H3 & H4 & H5 & H6).
    destruct (monitor_loop rest st' b') as [[rest' st''] b'']. simpl in *.
    subst rest'. repeat split; try congruence.
    rewrite H2. unfold b', alive_job. rewrite polled_spec. simpl.
    destruct (Process.is_alive (Job.process job)), b; done.
Qed.

Lemma alive_polled (job : Job.t) : alive_job (polled job) = alive_job job.
Proof. by rewrite polled_spec. Qed.

(** The jobs tracked after a poll: each job polled, then those dropped
    whose worker has ended and whose status is [Finished]. *)
Lemma monitor_all_outputs_jobs (st : app) :
  jobs (monitor_all_outputs st) = List.filter kept (polled <$> jobs st).
Proof.
  unfold monitor_all_outputs.
  pose proof (monitor_loop_spec (jobs st) st false) as (H1 & _).
  destruct (monitor_loop (jobs st) st false) as [[js st1] b]. simpl in *.
  subst js. by destruct b.
Qed.

Lemma monitor_all_outputs_still_running (st : app) :
  snd (monitor_loop (jobs st) st false) = existsb alive_job (jobs st).
Proof. by destruct (monitor_loop_spec (jobs st) st false) as (_ & -> & _). Qed.

Lemma step_puts (n : nat) (st : app) : rtc step st (Run.puts n st).
Proof.
  induction n as [|n IH]; simpl; [done |].
  eapply rtc_trans; [exact IH |].
  fold (Run.puts n st).
  destruct (at_job 0 worker_put (Run.puts n st)) as [st'|] eqn:E; simpl; [|done].
  apply rtc_once. by eapply step_worker_put.
Qed.

Lemma step_exits (st : app) : rtc step st (Run.exits st).
Proof.
  unfold Run.exits.
  destruct (at_job 0 worker_exit st) as [st'|] eqn:E; simpl; [|done].
  apply rtc_once. by eapply step_worker_exit.
Qed.

Lemma step_selected (sel : list nat) (st : app) : rtc step st (Run.selected sel st).
Proof.
  unfold Run.selected.
  destruct (stop_selected_job sel st) as [st'|e] eqn:E; [|done].
  apply rtc_once. by eapply step_stop_selected.
Qed.

Lemma reachable_launched (returncode : Z) : reachable (Run.launched returncode).
Proof.
  unfold Run.launched.
  destruct (_launch_upload_job _ _ _) as [st|e] eqn:E; [| by constructor].
  eapply rtc_once, step_launch, E.
Qed.

(** ** Rescheduling *)

(** C5, as the code has it.  A poll registers the next poll exactly
    when the worker of some job tracked at this poll is alive; the jobs
    it then keeps are not none.  Otherwise it registers nothing, stops
    the progress bar, shows "Ready", disables Stop All and logs the
    closing line, whether or not jobs remain tracked. *)
Theorem monitor_all_outputs_reschedules_iff_alive (st : app) :
  let st' := monitor_all_outputs st in
  if existsb alive_job (jobs st) then
    after_pending st' = S (after_pending st)
    /\ jobs st' <> []
    /\ status_var st' = running_text (length (List.filter alive_job (jobs st')))
    /\ progress_bar st' = progress_bar st
    /\ stop_btn st' = stop_btn st
  else
    after_pending st' = after_pending st
    /\ progress_bar st' = false
    /\ status_var st' = "Ready"
    /\ stop_btn st' = false
    /\ last (log_text st') = Some "=== All Upload Jobs Finished ===".
Proof.
  simpl.
  pose proof (monitor_all_outputs_jobs st) as Hjobs.
  pose proof (monitor_all_outputs_still_running st) as Hrun.
  pose proof (monitor_loop_spec (jobs st) st false) as (_ & _ & Ha & Hp & Hs & _).
  unfold monitor_all_outputs in *.
  destruct (monitor_loop (jobs st) st false) as [[js st1] b]. simpl in *.
  subst b. destruct (existsb alive_job (jobs st)) eqn:Hex; simpl in *.
  - repeat split; try congruence.
    rewrite Hjobs. apply existsb_exists in Hex as (j & Hin & Hj).
    intros Hnil.
    assert (Hk : polled j ∈ List.filter kept (polled <$> jobs st)).
    { apply list_elem_of_In, List.filter_In. split.
      - apply list_elem_of_In, list_elem_of_fmap. exists j.
        split; [done | by apply list_elem_of_In].
      - unfold kept. fold (alive_job (polled j)). by rewrite alive_polled, Hj. }
    rewrite Hnil in Hk. by apply elem_of_nil in Hk.
  - repeat split; try congruence. by rewrite last_snoc.
Qed.

(** C5, as stated, fails: after one job is launched and then stopped with
    Stop All, the pending poll runs, keeps the job in [self.jobs], and
    registers no further poll. *)
Lemma tracked_job_without_reschedule :
  let st := stop_upload (Run.launched 0) in
  reachable st
  /\ step st (tick st)
  /\ length (jobs (tick st)) = 1
  /\ Run.status_of_job 0 (tick st) = Some Stopped
  /\ after_pending (tick st) = 0
  /\ progress_bar (tick st) = false.
Proof.
  intros st. split; [| split].
  - eapply rtc_r; [apply reachable_launched |].
    apply step_stop_upload. vm_compute. reflexivity.
  - apply step_tick. vm_compute. lia.
  - vm_compute. repeat split.
Qed.

(** ** Pruning *)

Lemma drain_status_var (job : Job.t) (st : app) :
  status_var (snd (drain job st))
  = status_var_after (Job.queue job) (status_var st).
Proof.
  unfold drain.
  assert (H : forall q j s,
             status_var (snd (foldl (fun acc m => on_message m acc) (j, s) q))
             = status_var_after q (status_var s)).
  { induction q as [|m q IH]; intros j s; simpl; [done |].
    destruct m; simpl; by rewrite IH. }
  specialize (H (Job.queue job) job st).
  destruct (foldl _ _ _) as [job' st']. done.
Qed.

Lemma kept_spec (j : Job.t) :
  kept j = true <-> alive_job j = true \/ Job.status j <> Finished.
Proof.
  unfold kept, alive_job.
  rewrite orb_true_iff, negb_true_iff, String.eqb_neq. done.
Qed.

Lemma kept_false (j : Job.t) :
  kept j = false <-> alive_job j = false /\ Job.status j = Finished.
Proof.
  unfold kept, alive_job.
  rewrite orb_false_iff, negb_false_iff, String.eqb_eq. done.
Qed.

Lemma completed_job_queue (args : upload_args) (env : launch_env) :
  Job.queue (completed_job args env) = emitted args (worker env)
  /\ alive_job (completed_job args env) = false
  /\ Job.status (completed_job args env) = Uploading.
Proof. done. Qed.

Lemma completed_job_folder (args : upload_args) (env : launch_env) :
  Job.folder (completed_job args env) = folder_path args.
Proof. done. Qed.

Lemma foldl_on_message_log (q : list message) (job : Job.t) (st : app) :
  log_text (snd (foldl (fun acc m => on_message m acc) (job, st) q))
  = log_text st ++ omap (log_line (Job.folder job)) q.
Proof.
  revert job st. induction q as [|m q IH]; intros job st; simpl.
  - by rewrite app_nil_r.
  - destruct m; simpl; rewrite IH; simpl; by rewrite <- ?app_assoc.
Qed.

Lemma drain_log (job : Job.t) (st : app) :
  log_text (snd (drain job st)) = log_text st ++ job_log job.
Proof.
  unfold drain, job_log.
  pose proof (foldl_on_message_log (Job.queue job) job st) as H.
  destruct (foldl _ _ _) as [job' st']. done.
Qed.

Lemma monitor_loop_log (js : list Job.t) (st : app) (b : bool) :
  log_text (snd (fst (monitor_loop js st b)))
  = log_text st ++ concat (job_log <$> js).
Proof.
  revert st b. induction js as [|job rest IH]; intros st b; simpl.
  - by rewrite app_nil_r.
  - pose proof (drain_log job st) as Hd.
    destruct (drain job st) as [job' st']. simpl in Hd.
    set (b' := if Process.is_alive (Job.process job') then true else b).
    specialize (IH st' b').
    destruct (monitor_loop rest st' b') as [[rest' st''] b'']. simpl in *.
    by rewrite IH, Hd, <- app_assoc.
Qed.

Lemma monitor_all_outputs_log_text (st : app) :
  log_text (monitor_all_outputs st)
  = log_text st
    ++ concat (job_log <$> jobs st)
    ++ (if existsb alive_job (jobs st) then []
        else ["=== All Upload Jobs Finished ==="]).
Proof.
  pose proof (monitor_loop_log (jobs st) st false) as Hlog.
  pose proof (monitor_all_outputs_still_running st) as Hrun.
  unfold monitor_all_outputs.
  destruct (monitor_loop (jobs st) st false) as [[js st1] b]. simpl in *.
  subst b. destruct (existsb alive_job (jobs st)); simpl.
  - by rewrite Hlog, app_nil_r.
  - by rewrite Hlog, <- app_assoc.
Qed.

(** The lines of one tracked job are one block of what a poll logs. *)
Lemma monitor_all_outputs_job_log (st : app) (j : Job.t) :
  j ∈ jobs st ->
  exists before after,
    log_text (monitor_all_outputs st) = before ++ job_log j ++ after.
Proof.
  intros Hin. apply list_elem_of_split in Hin as (l1 & l2 & Hj).
  rewrite monitor_all_outputs_log_text, Hj, fmap_app, fmap_cons, concat_app.
  simpl.
  exists (log_text st ++ concat (job_log <$> l1)),
    (concat (job_log <$> l2)
     ++ (if existsb alive_job (l1 ++ j :: l2) then []
         else ["=== All Upload Jobs Finished ==="])).
  by rewrite <- !app_assoc.
Qed.

Lemma monitor_all_outputs_drops (st : app) (j : Job.t) :
  kept (polled j) = false -> polled j ∉ jobs (monitor_all_outputs st).
Proof.
  intros Hk. rewrite monitor_all_outputs_jobs.
  rewrite list_elem_of_In, List.filter_In. intros [_ Hk']. congruence.
Qed.

Lemma monitor_all_outputs_keeps (st : app) (j : Job.t) :
  j ∈ jobs st -> kept (polled j) = true ->
  polled j ∈ jobs (monitor_all_outputs st).
Proof.
  intros Hin Hk. rewrite monitor_all_outputs_jobs.
  rewrite list_elem_of_In, List.filter_In, <- list_elem_of_In.
  split; [| done]. apply list_elem_of_fmap. by exists j.
Qed.

Lemma filter_alive_kept_polled (js : list Job.t) :
  List.filter alive_job (List.filter kept (polled <$> js))
  = polled <$> List.filter alive_job js.
Proof.
  induction js as [|j js IH]; [done |].
  rewrite fmap_cons. cbn [List.filter].
  assert (Hk : alive_job j = true -> kept (polled j) = true).
  { intros Ha. unfold kept. fold (alive_job (polled j)).
    by rewrite alive_polled, Ha. }
  destruct (alive_job j) eqn:Ha.
  - rewrite (Hk eq_refl). cbn [List.filter].
    by rewrite alive_polled, Ha, fmap_cons, IH.
  - destruct (kept (polled j)); cbn [List.filter];
      rewrite ?alive_polled, ?Ha; exact IH.
Qed.

(** What a poll does to the widgets. *)
Lemma monitor_all_outputs_widgets (st : app) :
  dialogs (monitor_all_outputs st) = dialogs st
  /\ if existsb alive_job (jobs st) then
       after_pending (monitor_all_outputs st) = S (after_pending st)
       /\ progress_bar (monitor_all_outputs st) = progress_bar st
       /\ stop_btn (monitor_all_outputs st) = stop_btn st
       /\ status_var (monitor_all_outputs st)
          = running_text (length (List.filter alive_job (jobs st)))
     else
       after_pending (monitor_all_outputs st) = after_pending st
       /\ progress_bar (monitor_all_outputs st) = false
       /\ stop_btn (monitor_all_outputs st) = false
       /\ status_var (monitor_all_outputs st) = "Ready".
Proof.
  pose proof (monitor_all_outputs_still_running st) as Hrun.
  pose proof (monitor_loop_spec (jobs st) st false) as (Hjs & _ & Ha & Hp & Hs & Hd).
  unfold monitor_all_outputs.
  destruct (monitor_loop (jobs st) st false) as [[js st1] b]. simpl in *.
  subst b js. destruct (existsb alive_job (jobs st)); simpl.
  - repeat split; try congruence.
    f_equal. fold alive_job.
    change (fun j => Process.is_alive (Job.process j)) with alive_job.
    by rewrite filter_alive_kept_polled, length_fmap.
  - repeat split; congruence.
Qed.

(** The status line when a poll returns. *)
Lemma monitor_all_outputs_status_var (st : app) :
  status_var (monitor_all_outputs st)
  = if existsb alive_job (jobs st)
    then running_text (length (List.filter alive_job (jobs st)))
    else "Ready".
Proof.
  pose proof (monitor_all_outputs_widgets st) as (_ & H).
  destruct (existsb alive_job (jobs st)); by destruct H as (_ & _ & _ & H).
Qed.


(** Reachability of a sample run, read from its last step backwards. *)
Ltac by_tick := eapply rtc_r; [| apply step_tick; vm_compute; lia].
Ltac by_stop_upload :=
  eapply rtc_r; [| apply step_stop_upload; vm_compute; reflexivity].
Ltac by_puts n := eapply rtc_trans; [| apply (step_puts n)].
Ltac by_exits := eapply rtc_trans; [| apply step_exits].
Ltac by_selected sel := eapply rtc_trans; [| apply (step_selected sel)].



(** ** Cancelling *)

Lemma terminate_job_spec (job : Job.t) :
  terminate_job job =
    match Process.terminate_raises (Job.process job) with
    | None => Ok (stopped_job job)
    | Some e => Raise e
    end.
Proof.
  unfold terminate_job, Process.terminate, stopped_job.
  by destruct (Process.terminate_raises (Job.process job)).
Qed.

Lemma stop_one_cancelled (job : Job.t) : fst (stop_one job) = cancelled job.
Proof.
  unfold stop_one, cancelled, alive_job. rewrite terminate_job_spec.
  destruct (Process.is_alive (Job.process job)); [|done].
  by destruct (Process.terminate_raises (Job.process job)).
Qed.

Lemma stop_loop_jobs (js : list Job.t) (n : nat) :
  fst (stop_loop js n) = cancelled <$> js.
Proof.
  revert n. induction js as [|job rest IH]; intros n; simpl; [done |].
  pose proof (stop_one_cancelled job) as H1.
  destruct (stop_one job) as [job' hit]. simpl in H1. subst job'.
  specialize (IH (if hit then S n else n)).
  destruct (stop_loop rest _) as [rest' m]. simpl in *. by subst.
Qed.

Lemma stop_upload_jobs (st : app) : jobs (stop_upload st) = cancelled <$> jobs st.
Proof.
  unfold stop_upload.
  pose proof (stop_loop_jobs (jobs st) 0) as H.
  destruct (stop_loop (jobs st) 0) as [js [|n]]; simpl in *; by subst.
Qed.

(** C6, as the code has it.  [stop_selected_job] never raises.  With
    nothing selected, or a stale index, it does nothing.  Otherwise it
    looks at the worker, not at the job's status: if the worker is
    alive and [terminate()] does not raise, the worker is terminated,
    the status becomes [Stopped] and the stop is logged; if
    [terminate()] raises, only the failure is logged; if the worker is
    not alive, the job list is unchanged and "Job already finished" is
    logged.  [stop_upload] treats every job the same way. *)
Theorem stop_selected_job_by_liveness (sel : list nat) (st : app) :
  (exists st', stop_selected_job sel st = Ok st')
  /\ (sel = [] -> stop_selected_job sel st = Ok st)
  /\ (forall idx rest, sel = idx :: rest -> jobs st !! idx = None ->
        stop_selected_job sel st = Ok st)
  /\ (forall idx rest job, sel = idx :: rest -> jobs st !! idx = Some job ->
        alive_job job = true ->
        Process.terminate_raises (Job.process job) = None ->
        stop_selected_job sel st =
          Ok (log_message
                ("Stopped job for folder: " +:+ Job.folder job
                   +:+ " (List ID: " +:+ Job.list_id job +:+ ")")
                (set_jobs (<[idx := stopped_job job]> (jobs st)) st))
        /\ Job.status (stopped_job job) = Stopped
        /\ alive_job (stopped_job job) = false)
  /\ (forall idx rest job e, sel = idx :: rest -> jobs st !! idx = Some job ->
        alive_job job = true ->
        Process.terminate_raises (Job.process job) = Some e ->
        stop_selected_job sel st =
          Ok (log_message ("Failed to stop job for folder: " +:+ Job.folder job) st))
  /\ (forall idx rest job, sel = idx :: rest -> jobs st !! idx = Some job ->
        alive_job job = false ->
        stop_selected_job sel st =
          Ok (log_message ("Job already finished: " +:+ Job.folder job) st))
  /\ jobs (stop_upload st) = cancelled <$> jobs st.
Proof.
  split; [| split; [| split; [| split; [| split; [| split]]]]].
  - destruct sel as [|idx rest]; simpl; [by eexists |].
    destruct (decide (length (jobs st) <= idx)); [by eexists |].
    destruct (jobs st !! idx) as [job|] eqn:E.
    + rewrite terminate_job_spec.
      destruct (Process.is_alive (Job.process job)); [| by eexists].
      destruct (Process.terminate_raises (Job.process job)); by eexists.
    + apply lookup_ge_None in E. lia.
  - by intros ->.
  - intros idx rest -> E. simpl.
    destruct (decide (length (jobs st) <= idx)); [done |].
    apply lookup_ge_None in E. lia.
  - intros idx rest job -> E Ha Ht. simpl.
    destruct (decide (length (jobs st) <= idx)) as [Hle|_].
    { apply lookup_lt_Some in E. lia. }
    rewrite E, terminate_job_spec. unfold alive_job in Ha. by rewrite Ha, Ht.
  - intros idx rest job e -> E Ha Ht. simpl.
    destruct (decide (length (jobs st) <= idx)) as [Hle|_].
    { apply lookup_lt_Some in E. lia. }
    rewrite E, terminate_job_spec. unfold alive_job in Ha. by rewrite Ha, Ht.
  - intros idx rest job -> E Ha. simpl.
    destruct (decide (length (jobs st) <= idx)) as [Hle|_].
    { apply lookup_lt_Some in E. lia. }
    rewrite E. unfold alive_job in Ha. by rewrite Ha.
  - apply stop_upload_jobs.
Qed.

Lemma stop_selected_job_by_liveness_witness :
  let st := Run.launched 0 in
  let job := new_job Sample.args (Sample.lenv 0) in
  jobs st !! 0 = Some job
  /\ alive_job job = true
  /\ stop_selected_job [0] st =
       Ok (log_message "Stopped job for folder: /a (List ID: L)"
             (set_jobs [stopped_job job] st))
  /\ stop_selected_job [0] (Run.exits (Run.puts 5 st)) =
       Ok (log_message "Job already finished: /a" (Run.exits (Run.puts 5 st))).
Proof.
  intros st job.
  destruct (stop_selected_job_by_liveness [0] st)
    as (_ & _ & _ & Halive & _ & _ & _).
  destruct (stop_selected_job_by_liveness [0] (Run.exits (Run.puts 5 st)))
    as (_ & _ & _ & _ & _ & Hdead & _).
  split; [vm_compute; reflexivity |]. split; [reflexivity |]. split.
  - exact (proj1 (Halive 0 [] job eq_refl eq_refl eq_refl eq_refl)).
  - exact (Hdead 0 [] (completed_job Sample.args (Sample.lenv 0))
             eq_refl eq_refl eq_refl).
Defined.

(** C6, as stated, fails in both halves.  (1) A job whose status
    already is the success text, while its worker has not ended yet, is
    terminated by a cancel and its status overwritten with [Stopped].
    (2) A job whose status still is the initial one, while its worker
    has ended, is left as it is by a cancel: no signal, no [Stopped]. *)
Lemma cancel_follows_liveness_not_status :
  let st1 := tick (Run.puts 4 (Run.launched 0)) in
  let st2 := Run.exits (Run.puts 5 (Run.launched 0)) in
  reachable st1
  /\ Run.status_of_job 0 st1 = Some status_succeeded
  /\ Run.alive_of_job 0 st1 = Some true
  /\ Run.status_of_job 0 (Run.selected [0] st1) = Some Stopped
  /\ Run.alive_of_job 0 (Run.selected [0] st1) = Some false
  /\ reachable st2
  /\ Run.status_of_job 0 st2 = Some Uploading
  /\ Run.alive_of_job 0 st2 = Some false
  /\ stop_selected_job [0] st2 = Ok (log_message "Job already finished: /a" st2)
  /\ Run.status_of_job 0 (Run.selected [0] st2) = Some Uploading.
Proof.
  intros st1 st2.
  split; [unfold st1, reachable; by_tick; by_puts 4; apply reachable_launched |].
  do 4 (split; [vm_compute; reflexivity |]).
  split; [unfold st2, reachable; by_exits; by_puts 5; apply reachable_launched |].
  repeat split; vm_compute; reflexivity.
Qed.

(** ** The life of one job *)

Lemma run_ops_app (ops more : list job_op) (j : Job.t) :
  run_ops (ops ++ more) j = run_ops more (run_ops ops j).
Proof. unfold run_ops. apply foldl_app. Qed.

Lemma runner_status_not_Uploading (s : string) : runner_status s -> s <> Uploading.
Proof.
  intros [rc ->]. unfold status_of_returncode.
  destruct (decide (rc = 0%Z)); [discriminate | apply status_failed_not_Uploading].
Qed.

Lemma emitted_from_runner (args : upload_args) (env : worker_env) :
  Forall from_runner (emitted args env).
Proof.
  assert (Hfw : forall lines, Forall from_runner (forwarded lines)).
  { intros lines. eapply Forall_impl; [apply forwarded_outputs |].
    by intros [] ?. }
  rewrite emitted_spec. do 2 (constructor; [done |]).
  apply Forall_app. split; [| by repeat constructor].
  destruct (popen env) as [e | lines [rc | e]]; simpl.
  - by repeat constructor.
  - apply Forall_app. split; [apply Hfw |]. repeat constructor. by exists rc.
  - apply Forall_app. split; [apply Hfw |]. by repeat constructor.
Qed.

Lemma new_job_well_formed (args : upload_args) (env : launch_env) :
  well_formed (new_job args env).
Proof. unfold well_formed. simpl. apply emitted_from_runner. Qed.

Lemma status_after_valid (q : list message) (s : string) :
  Forall from_runner q -> valid_status s -> valid_status (status_after q s).
Proof.
  unfold status_after. revert s.
  induction q as [|m q IH]; intros s Hq Hs; simpl; [done |].
  apply Forall_cons in Hq as [Hm Hq]. apply IH; [done |].
  destruct m; simpl in *; unfold valid_status; auto.
Qed.

Lemma status_after_left (q : list message) (s : string) :
  Forall from_runner q -> s <> Uploading -> status_after q s <> Uploading.
Proof.
  unfold status_after. revert s.
  induction q as [|m q IH]; intros s Hq Hs; simpl; [done |].
  apply Forall_cons in Hq as [Hm Hq]. apply IH; [done |].
  destruct m; simpl in *; try done. by apply runner_status_not_Uploading.
Qed.

Lemma worker_put_spec (j j' : Job.t) :
  worker_put j = Some j' ->
  exists m rest,
    Process.to_put (Job.process j) = m :: rest
    /\ alive_job j = true
    /\ Process.to_put (Job.process j') = rest
    /\ Job.queue j' = Job.queue j ++ [m]
    /\ Job.status j' = Job.status j
    /\ alive_job j' = true.
Proof.
  unfold worker_put, alive_job.
  destruct (Process.is_alive (Job.process j)) eqn:Ha; [|done].
  destruct (Process.to_put (Job.process j)) as [|m rest] eqn:Hp; [done |].
  intros [= <-]. by exists m, rest.
Qed.

Lemma worker_exit_spec (j j' : Job.t) :
  worker_exit j = Some j' ->
  alive_job j = true
  /\ Process.to_put (Job.process j) = []
  /\ Process.to_put (Job.process j') = []
  /\ Job.queue j' = Job.queue j
  /\ Job.status j' = Job.status j
  /\ alive_job j' = false.
Proof.
  unfold worker_exit, alive_job.
  destruct (Process.is_alive (Job.process j)) eqn:Ha; [|done].
  destruct (Process.to_put (Job.process j)) as [|m rest] eqn:Hp; [|done].
  by intros [= <-].
Qed.

(** One step keeps the tuples the worker's and the status among the
    values the GUI writes, and never writes the initial status back. *)
Lemma apply_op_invariant (op : job_op) (j : Job.t) :
  well_formed j -> valid_status (Job.status j) ->
  well_formed (apply_op op j)
  /\ valid_status (Job.status (apply_op op j))
  /\ (Job.status j <> Uploading -> Job.status (apply_op op j) <> Uploading).
Proof.
  unfold well_formed. intros Hwf Hv. destruct op; simpl.
  - rewrite drain_job. simpl.
    apply Forall_app in Hwf as [Hq Hp].
    split; [done |]. split; [by apply status_after_valid |].
    by apply status_after_left.
  - rewrite stop_one_cancelled. unfold cancelled.
    destruct (alive_job j); [|done].
    destruct (Process.terminate_raises (Job.process j)); [done |].
    simpl. split; [done |]. split; [unfold valid_status; auto | discriminate].
  - destruct (worker_put j) as [j'|] eqn:E; simpl; [|done].
    apply worker_put_spec in E as (m & rest & Hp & _ & Hp' & Hq' & Hs' & _).
    rewrite Hp', Hq', Hs', <- app_assoc. simpl. by rewrite <- Hp.
  - destruct (worker_exit j) as [j'|] eqn:E; simpl; [|done].
    apply worker_exit_spec in E as (_ & Hp & Hp' & Hq' & Hs' & _).
    rewrite Hp', Hq', Hs'. by rewrite Hp in Hwf.
Qed.

Lemma run_ops_invariant (ops : list job_op) (j : Job.t) :
  well_formed j -> valid_status (Job.status j) ->
  well_formed (run_ops ops j)
  /\ valid_status (Job.status (run_ops ops j))
  /\ (Job.status j <> Uploading -> Job.status (run_ops ops j) <> Uploading).
Proof.
  revert j. induction ops as [|op ops IH]; intros j Hwf Hv; [done |].
  change (run_ops (op :: ops) j) with (run_ops ops (apply_op op j)).
  destruct (apply_op_invariant op j Hwf Hv) as (Hwf' & Hv' & Hl').
  destruct (IH _ Hwf' Hv') as (Hwf'' & Hv'' & Hl'').
  auto.
Qed.

(** Once a worker is not alive, nothing is put on its queue any more:
    a later poll empties the queue, and nothing else changes it. *)
Lemma dead_job_ops (ops : list job_op) (j : Job.t) :
  alive_job j = false ->
  alive_job (run_ops ops j) = false
  /\ Process.to_put (Job.process (run_ops ops j)) = Process.to_put (Job.process j)
  /\ (Job.queue (run_ops ops j) = Job.queue j \/ Job.queue (run_ops ops j) = []).
Proof.
  revert j. induction ops as [|op ops IH]; intros j Ha; [auto |].
  change (run_ops (op :: ops) j) with (run_ops ops (apply_op op j)).
  assert (H : alive_job (apply_op op j) = false
              /\ Process.to_put (Job.process (apply_op op j))
                 = Process.to_put (Job.process j)
              /\ (Job.queue (apply_op op j) = Job.queue j
                  \/ Job.queue (apply_op op j) = [])).
  { destruct op; simpl.
    - rewrite drain_job. simpl. auto.
    - rewrite stop_one_cancelled. unfold cancelled. rewrite Ha. auto.
    - unfold worker_put. unfold alive_job in Ha. rewrite Ha. simpl. auto.
    - unfold worker_exit. unfold alive_job in Ha. rewrite Ha. simpl. auto. }
  destruct H as (Ha' & Hp' & Hq').
  destruct (IH _ Ha') as (Ha'' & Hp'' & Hq'').
  split; [done |]. split; [congruence |].
  destruct Hq'' as [-> | ->]; [| by right].
  destruct Hq' as [-> | ->]; auto.
Qed.

(** C7, as the code has it.  A cancel that reaches a job with a live
    worker terminates the worker process itself and writes [Stopped]
    at once.  From then on, whatever polls, cancels and attempted
    worker steps follow, the worker is not alive and puts nothing: what
    it had not yet put (its final status tuple and the final tuple
    among it) is never put, and the job's queue only ever holds what was
    in it at the cancel, until a poll empties it. *)
Theorem terminated_worker_puts_nothing
    (job job' : Job.t) (ops : list job_op) :
  alive_job job = true ->
  terminate_job job = Ok job' ->
  Job.status job' = Stopped
  /\ Job.queue job' = Job.queue job
  /\ alive_job (run_ops ops job') = false
  /\ Process.to_put (Job.process (run_ops ops job'))
     = Process.to_put (Job.process job)
  /\ (Job.queue (run_ops ops job') = Job.queue job
      \/ Job.queue (run_ops ops job') = [])
  /\ worker_put (run_ops ops job') = None
  /\ worker_exit (run_ops ops job') = None.
Proof.
  intros Ha Ht. rewrite terminate_job_spec in Ht.
  destruct (Process.terminate_raises (Job.process job)); [done |].
  injection Ht as <-.
  destruct (dead_job_ops ops (stopped_job job) eq_refl) as (Ha' & Hp' & Hq').
  repeat split; try done.
  - unfold worker_put. unfold alive_job in Ha'. by rewrite Ha'.
  - unfold worker_exit. unfold alive_job in Ha'. by rewrite Ha'.
Qed.

Lemma terminated_worker_puts_nothing_witness :
  let job := new_job Sample.args (Sample.lenv 0) in
  let ops := [Poll; Put; Exit; Poll] in
  alive_job job = true
  /\ terminate_job job = Ok (stopped_job job)
  /\ Job.status (stopped_job job) = Stopped
  /\ Job.queue (stopped_job job) = Job.queue job
  /\ alive_job (run_ops ops (stopped_job job)) = false
  /\ Process.to_put (Job.process (run_ops ops (stopped_job job)))
     = Process.to_put (Job.process job)
  /\ (Job.queue (run_ops ops (stopped_job job)) = Job.queue job
      \/ Job.queue (run_ops ops (stopped_job job)) = [])
  /\ worker_put (run_ops ops (stopped_job job)) = None
  /\ worker_exit (run_ops ops (stopped_job job)) = None.
Proof.
  intros job ops. split; [reflexivity |]. split; [reflexivity |].
  exact (terminated_worker_puts_nothing job (stopped_job job) ops
           eq_refl eq_refl).
Defined.

(** C7, as stated, fails: a job is launched and cancelled while its
    worker is alive.  The worker then holds its status tuple and its
    final tuple unsent, no worker step is possible any more, the queue
    stays empty under every later operation, and the next poll logs no
    status line for the job. *)
Lemma cancelled_worker_emits_no_final_events :
  let st := Run.selected [0] (Run.launched 0) in
  let job := stopped_job (new_job Sample.args (Sample.lenv 0)) in
  reachable st
  /\ jobs st = [job]
  /\ Job.status job = Stopped
  /\ alive_job job = false
  /\ Job.queue job = []
  /\ status status_succeeded ∈ Process.to_put (Job.process job)
  /\ finished ∈ Process.to_put (Job.process job)
  /\ at_job 0 worker_put st = None
  /\ at_job 0 worker_exit st = None
  /\ (forall ops, Job.queue (run_ops ops job) = [])
  /\ jobs (tick st) = [job]
  /\ log_text (tick st) = log_text st ++ ["=== All Upload Jobs Finished ==="].
Proof.
  intros st job.
  split; [unfold st, reachable; by_selected [0%nat]; apply reachable_launched |].
  split; [vm_compute; reflexivity |].
  do 3 (split; [reflexivity |]).
  split; [vm_compute; repeat constructor |].
  split; [vm_compute; repeat constructor |].
  do 2 (split; [vm_compute; reflexivity |]).
  split.
  - intros ops.
    destruct (dead_job_ops ops job eq_refl) as (_ & _ & [H | H]); exact H.
  - split; vm_compute; reflexivity.
Qed.

(** ** The status field *)

(** C3, as the code has it.  A launched job starts with the status
    ['Uploading...'].  Under every sequence of polls, cancels and worker
    steps its status is one of: the initial text, a status text sent by
    its worker, [Finished], [Stopped]; and once it is no longer the
    initial text it never is again.  (It is not frozen: see
    [terminal_status_overwritten].) *)
Theorem status_never_returns_to_Uploading
    (args : upload_args) (env : launch_env) (ops more : list job_op) :
  Job.status (run_ops ops (new_job args env)) <> Uploading ->
  Job.status (new_job args env) = Uploading
  /\ valid_status (Job.status (run_ops ops (new_job args env)))
  /\ valid_status (Job.status (run_ops (ops ++ more) (new_job args env)))
  /\ Job.status (run_ops (ops ++ more) (new_job args env)) <> Uploading.
Proof.
  intros Hleft.
  pose proof (new_job_well_formed args env) as Hwf.
  assert (Hv : valid_status (Job.status (new_job args env))) by (by left).
  destruct (run_ops_invariant ops _ Hwf Hv) as (Hwf1 & Hv1 & _).
  destruct (run_ops_invariant more _ Hwf1 Hv1) as (_ & Hv2 & Hl2).
  rewrite run_ops_app. auto.
Qed.

Lemma status_never_returns_to_Uploading_witness :
  let j := new_job Sample.args (Sample.lenv 0) in
  let ops := [Put; Put; Put; Put; Poll] in
  let more := [Cancel; Put; Poll; Exit; Poll] in
  Job.status (run_ops ops j) = status_succeeded
  /\ Job.status j = Uploading
  /\ valid_status (Job.status (run_ops ops j))
  /\ valid_status (Job.status (run_ops (ops ++ more) j))
  /\ Job.status (run_ops (ops ++ more) j) <> Uploading.
Proof.
  intros j ops more. split; [vm_compute; reflexivity |].
  apply (status_never_returns_to_Uploading Sample.args (Sample.lenv 0) ops more).
  intros H. vm_compute in H. discriminate H.
Defined.

(** C3, as stated, fails.  (1) A poll drains the success status while
    the worker is alive; the worker then puts its final tuple and the
    next poll overwrites the terminal status with [Finished].  (2) A
    job is stopped while its status tuple is still in the queue; the
    next poll overwrites [Stopped] with the success text. *)
Lemma terminal_status_overwritten :
  let st1 := tick (Run.puts 4 (Run.launched 0)) in
  let st2 := tick (Run.puts 1 st1) in
  let st3 := stop_upload (Run.puts 4 (Run.launched 0)) in
  reachable st1
  /\ Run.status_of_job 0 st1 = Some status_succeeded
  /\ rtc step st1 st2
  /\ Run.status_of_job 0 st2 = Some Finished
  /\ Finished <> status_succeeded
  /\ reachable st3
  /\ Run.status_of_job 0 st3 = Some Stopped
  /\ step st3 (tick st3)
  /\ Run.status_of_job 0 (tick st3) = Some status_succeeded
  /\ Stopped <> status_succeeded.
Proof.
  intros st1 st2 st3.
  split; [unfold st1, reachable; by_tick; by_puts 4; apply reachable_launched |].
  split; [vm_compute; reflexivity |].
  split; [unfold st2; by_tick; apply (step_puts 1) |].
  split; [vm_compute; reflexivity |].
  split; [discriminate |].
  split; [unfold st3, reachable; by_stop_upload; by_puts 4;
          apply reachable_launched |].
  split; [vm_compute; reflexivity |].
  split; [apply step_tick; vm_compute; lia |].
  split; [vm_compute; reflexivity | discriminate].
Qed.

(** ** Every tracked job is a launched job after job-level steps *)

Lemma launched_job_new (args : upload_args) (env : launch_env) :
  launched_job (new_job args env).
Proof. by exists args, env, []. Qed.

Lemma launched_job_op (op : job_op) (j : Job.t) :
  launched_job j -> launched_job (apply_op op j).
Proof.
  intros (args & env & ops & ->). exists args, env, (ops ++ [op]).
  by rewrite run_ops_app.
Qed.

Lemma launched_jobs_polled (js : list Job.t) :
  Forall launched_job js -> Forall launched_job (List.filter kept (polled <$> js)).
Proof.
  intros H. apply Forall_forall. intros j Hin.
  apply list_elem_of_In, List.filter_In in Hin as [Hin _].
  apply list_elem_of_In, list_elem_of_fmap in Hin as (j0 & -> & Hin0).
  rewrite Forall_forall in H. apply (launched_job_op Poll), H, Hin0.
Qed.

Lemma launched_jobs_insert (js : list Job.t) (i : nat) (j : Job.t) :
  Forall launched_job js -> launched_job j -> Forall launched_job (<[i := j]> js).
Proof.
  intros H Hj. apply Forall_forall. intros x Hin.
  apply list_elem_of_lookup in Hin as [k Hk].
  destruct (decide (i = k)) as [-> | Hne].
  - destruct (decide (k < length js)) as [Hlt | Hge].
    + rewrite list_lookup_insert_eq in Hk by done. by injection Hk as <-.
    + rewrite list_insert_ge in Hk by lia.
      rewrite Forall_forall in H. eapply H, list_elem_of_lookup. eauto.
  - rewrite list_lookup_insert_ne in Hk by done.
    rewrite Forall_forall in H. eapply H, list_elem_of_lookup. eauto.
Qed.

Lemma launch_jobs (f : Form.t) (env : launch_env) (st st' : app) :
  _launch_upload_job f env st = Ok st' ->
  jobs st' = jobs st
  \/ exists script policy,
       jobs st'
       = List.filter kept
           (polled <$> (jobs st ++ [new_job (launch_args f script policy) env])).
Proof.
  unfold _launch_upload_job.
  destruct (decide (Form.selected_folder f = "")); [intros [= <-]; by left |].
  destruct (negb (path_exists env)); [intros [= <-]; by left |].
  destruct (find_uploader_script env) as [script|]; [| intros [= <-]; by left].
  destruct (Form.multi_face_policy f) as [policy|e]; [| done].
  intros [= <-]. right. exists script, policy.
  by rewrite monitor_all_outputs_jobs.
Qed.

Lemma at_job_jobs (i : nat) (step_of : Job.t -> option Job.t) (st st' : app) :
  at_job i step_of st = Some st' ->
  exists j j', jobs st !! i = Some j /\ step_of j = Some j'
               /\ jobs st' = <[i := j']> (jobs st).
Proof.
  unfold at_job. destruct (jobs st !! i) as [j|]; [|done].
  destruct (step_of j) as [j'|] eqn:E; [|done].
  intros [= <-]. by exists j, j'.
Qed.

Lemma stop_selected_job_jobs (sel : list nat) (st st' : app) :
  stop_selected_job sel st = Ok st' ->
  jobs st' = jobs st
  \/ exists idx job, jobs st !! idx = Some job
                     /\ jobs st' = <[idx := apply_op Cancel job]> (jobs st).
Proof.
  destruct sel as [|idx rest]; simpl; [intros [= <-]; by left |].
  destruct (decide (length (jobs st) <= idx)); [intros [= <-]; by left |].
  destruct (jobs st !! idx) as [job|] eqn:E; [|done].
  rewrite terminate_job_spec.
  destruct (Process.is_alive (Job.process job)) eqn:Ha; [| intros [= <-]; by left].
  destruct (Process.terminate_raises (Job.process job)) eqn:Ht;
    intros [= <-]; [by left |].
  right. exists idx, job. split; [done |]. simpl.
  rewrite stop_one_cancelled. unfold cancelled, alive_job. by rewrite Ha, Ht.
Qed.

(** In every reachable state, every tracked job is a job as launched,
    after some polls, cancels and steps of its worker. *)
Lemma reachable_jobs (st : app) :
  reachable st -> Forall launched_job (jobs st).
Proof.
  unfold reachable. revert st.
  apply (rtc_ind_r (fun st => Forall launched_job (jobs st))); [constructor |].
  intros st1 st2 _ Hstep IH.
  destruct Hstep as [st f env st' Hl | st Hp | st Hb | st sel st' Hs
                    | st i st' Hw | st i st' Hw].
  - apply launch_jobs in Hl as [-> | (script & policy & ->)]; [done |].
    apply launched_jobs_polled, Forall_app. split; [done |].
    repeat constructor. apply launched_job_new.
  - unfold tick. rewrite monitor_all_outputs_jobs.
    by apply launched_jobs_polled.
  - rewrite stop_upload_jobs. apply Forall_fmap.
    eapply Forall_impl; [exact IH |]. intros j Hj. simpl.
    rewrite <- stop_one_cancelled. by apply (launched_job_op Cancel).
  - apply stop_selected_job_jobs in Hs as [-> | (idx & job & E & ->)]; [done |].
    apply launched_jobs_insert; [done |].
    apply launched_job_op. rewrite Forall_forall in IH.
    eapply IH, list_elem_of_lookup. eauto.
  - apply at_job_jobs in Hw as (j & j' & E & Hj & ->).
    apply launched_jobs_insert; [done |].
    replace j' with (apply_op Put j) by (simpl; by rewrite Hj).
    apply launched_job_op. rewrite Forall_forall in IH.
    eapply IH, list_elem_of_lookup. eauto.
  - apply at_job_jobs in Hw as (j & j' & E & Hj & ->).
    apply launched_jobs_insert; [done |].
    replace j' with (apply_op Exit j) by (simpl; by rewrite Hj).
    apply launched_job_op. rewrite Forall_forall in IH.
    eapply IH, list_elem_of_lookup. eauto.
Qed.

(** ** Loading settings *)

Ltac unfold_load_settings :=
  unfold load_settings, Gui.try_except, load_settings_body, apply_settings,
    set_string, set_boolean, settings_get, mbind, gui_bind, Gui.bind,
    Gui.ret, Gui.raise, Gui.get, Gui.modify, Gui.lift, Gui.log_message;
  simpl.

(** C9.  [load_settings] returns normally whatever the file holds.
    When the file is absent the variables keep their values and nothing
    is logged; when it cannot be opened or parsed, or holds no JSON
    object, they keep their values and one line is logged.  Called, as
    in [__init__], on the built-in defaults, this yields the defaults;
    and for a parsed object every variable whose key is missing has its
    built-in default afterwards. *)
Theorem load_settings_never_raises
    (tcl_string : pyvalue -> string) (tcl_getboolean : string -> option bool)
    (file : settings_file) (s : Gui.state) (log0 : list string) :
  let load := load_settings tcl_string tcl_getboolean in
  snd (load file s) = Ok ()
  /\ load Absent (Vars.defaults, log0) = ((Vars.defaults, log0), Ok ())
  /\ (forall e,
        load (Unparseable e) (Vars.defaults, log0)
        = ((Vars.defaults, log0 ++ ["Could not load settings: " +:+ e]), Ok ()))
  /\ (forall settings, (forall d, settings <> PDict d) ->
        load (Parsed settings) (Vars.defaults, log0)
        = ((Vars.defaults,
            log0 ++ ["Could not load settings: '" +:+ type_name settings
                       +:+ "' object has no attribute 'get'"]), Ok ()))
  /\ (forall d,
        let vars := fst (fst (load (Parsed (PDict d)) (Vars.defaults, log0))) in
        (d !! "username" = None -> Vars.username vars = "")
        /\ (d !! "password" = None -> Vars.password vars = "")
        /\ (d !! "descriptor" = None -> Vars.descriptor vars = "1")
        /\ (d !! "origin" = None -> Vars.origin vars = "http://127.0.0.1:5000")
        /\ (d !! "avatar" = None -> Vars.avatar vars = "1")
        /\ (d !! "list_id" = None ->
            Vars.list_id vars = "90936600-d44b-4717-9b33-d685faf00616")
        /\ (d !! "warped" = None -> Vars.warped vars = false)
        /\ (d !! "name_as_userdata" = None -> Vars.name_as_userdata vars = false)
        /\ (d !! "multi_face_policy" = None -> Vars.multi_face_policy vars = PInt 1)).
Proof.
  intros load. subst load. split; [| split; [| split; [| split]]].
  - destruct file as [| e | settings]; [done | done |].
    destruct settings as [| | | | | | d]; try done.
    unfold_load_settings.
    destruct (getboolean _ _) as [b1|e1]; simpl; [|done].
    by destruct (getboolean _ _) as [b2|e2].
  - done.
  - done.
  - intros settings Hnd. destruct settings as [| | | | | | d]; try done.
    by destruct (Hnd d).
  - intros d vars. subst vars. unfold_load_settings.
    destruct (getboolean _ (default (PBool false) (d !! "warped")))
      as [b1|e1] eqn:E1; simpl.
    + destruct (getboolean _ (default (PBool false) (d !! "name_as_userdata")))
        as [b2|e2] eqn:E2; simpl.
      * repeat split; intros H; rewrite H in *; simpl in *; congruence.
      * repeat split; intros H; rewrite H in *; simpl in *; congruence.
    + repeat split; intros H; rewrite H in *; simpl in *; congruence.
Qed.

Lemma load_settings_never_raises_witness :
  let load := load_settings SampleSettings.tcl_string SampleSettings.tcl_getboolean in
  let vars := fst (fst (load (Parsed (PDict SampleSettings.settings))
                          (Vars.defaults, []))) in
  snd (load (Parsed (PDict SampleSettings.settings)) (Vars.defaults, [])) = Ok ()
  /\ Vars.username vars = "bob"
  /\ Vars.avatar vars = "7"
  /\ Vars.password vars = ""
  /\ Vars.descriptor vars = "1"
  /\ Vars.name_as_userdata vars = false
  /\ Vars.multi_face_policy vars = PInt 1.
Proof.
  intros load vars.
  destruct (load_settings_never_raises
              SampleSettings.tcl_string SampleSettings.tcl_getboolean
              (Parsed (PDict SampleSettings.settings)) (Vars.defaults, []) [])
    as (Hok & _ & _ & _ & Hmissing).
  destruct (Hmissing SampleSettings.settings)
    as (_ & Hpw & Hds & _ & _ & _ & _ & Hnu & Hmf).
  split; [exact Hok |].
  split; [vm_compute; reflexivity |]. split; [vm_compute; reflexivity |].
  split; [exact (Hpw eq_refl) |]. split; [exact (Hds eq_refl) |].
  split; [exact (Hnu eq_refl) | exact (Hmf eq_refl)].
Defined.

(** * Further properties *)

(** ** The worker: error paths, the chmod step, forwarding *)

Lemma filter_error_outputs (l : list message) :
  Forall (fun m => is_output m = true) l -> List.filter is_error l = [].
Proof.
  induction 1 as [|m l Hm _ IH]; simpl; [done |].
  destruct m; simpl in *; try done.
Qed.

Lemma forwarded_all (lines : list string) :
  Forall (fun line => line <> "") lines ->
  forwarded lines = (fun line => output (strip line)) <$> lines.
Proof.
  induction 1 as [|line rest Hne _ IH]; simpl; [done |].
  destruct (decide (line = "")); [done | by rewrite IH].
Qed.

Lemma forwarded_until_empty (before after : list string) :
  forwarded (before ++ "" :: after) = forwarded before.
Proof.
  induction before as [|line rest IH]; simpl; [done |].
  destruct (decide (line = "")); [done | by rewrite IH].
Qed.

(** X1.  A run puts either a status tuple or an error tuple, never
    both.  When [Popen] raises, the run is the two announcements, one
    error tuple with "Error running upload: " and the exception text,
    and the final tuple.  When reading the child's output raises, the
    run is the two announcements, one output tuple for each line read
    before, stripped and in the order read, one such error tuple and
    the final tuple; no status tuple is put.  When the child is read to
    the end there is no error tuple and one status tuple. *)
Theorem run_upload_mp_status_or_error (args : upload_args) (env : worker_env) :
  match popen env with
  | PopenRaises e =>
      emitted args env =
        [output ("Starting upload from: " +:+ folder_path args);
         output ("Command: " +:+ join " " (cmd (sys_executable env) args));
         error ("Error running upload: " +:+ e);
         finished]
  | Started lines (ReadRaises e) =>
      (forall read ignored,
         Forall (fun line => line <> "") read ->
         lines = read \/ lines = read ++ "" :: ignored ->
         emitted args env =
           [output ("Starting upload from: " +:+ folder_path args);
            output ("Command: " +:+ join " " (cmd (sys_executable env) args))]
           ++ ((fun line => output (strip line)) <$> read)
           ++ [error ("Error running upload: " +:+ e); finished])
      /\ List.filter is_status (emitted args env) = []
      /\ List.filter is_error (emitted args env)
         = [error ("Error running upload: " +:+ e)]
  | Started lines (ReadEOF returncode) =>
      List.filter is_error (emitted args env) = []
      /\ length (List.filter is_status (emitted args env)) = 1
  end.
Proof.
  rewrite emitted_spec.
  destruct (popen env) as [e | lines [returncode | e]]; simpl; [done | |].
  - pose proof (forwarded_outputs lines) as Hfw.
    rewrite !List.filter_app, (filter_error_outputs _ Hfw),
      (filter_status_outputs _ Hfw). done.
  - pose proof (forwarded_outputs lines) as Hfw.
    rewrite !List.filter_app, (filter_error_outputs _ Hfw),
      (filter_status_outputs _ Hfw).
    split; [| done].
    intros read ignored Hne [-> | ->];
      rewrite ?forwarded_until_empty, (forwarded_all _ Hne), <- app_assoc; done.
Qed.

Lemma run_upload_mp_status_or_error_witness :
  emitted Sample.args
    {| sys_executable := "python3"; os_posix := false; access_x_ok := true;
       chmod_raises := None;
       popen := Started [" a.jpg ok "; "b.jpg ok"] (ReadRaises "I/O error") |}
  = [output "Starting upload from: /a";
     output ("Command: " +:+ join " " (cmd "python3" Sample.args))]
    ++ [output "a.jpg ok"; output "b.jpg ok"]
    ++ [error "Error running upload: I/O error"; finished].
Proof.
  exact (proj1 (run_upload_mp_status_or_error Sample.args
                  {| sys_executable := "python3"; os_posix := false;
                     access_x_ok := true; chmod_raises := None;
                     popen := Started [" a.jpg ok "; "b.jpg ok"]
                                (ReadRaises "I/O error") |})
           [" a.jpg ok "; "b.jpg ok"] []
           ltac:(repeat constructor; discriminate) (or_introl eq_refl)).
Defined.

(** X2.  The attempt to make the script executable never shows in what
    the worker reports: whether the platform is POSIX, whether the script
    is executable and whether [os.chmod] raises make no difference to the
    run. *)
Theorem run_upload_mp_ignores_chmod
    (args : upload_args) (exe : string) (p : popen_outcome)
    (posix x_ok : bool) (chmod : option string) :
  run_upload_mp args
    {| sys_executable := exe; os_posix := posix; access_x_ok := x_ok;
       chmod_raises := chmod; popen := p |}
  = run_upload_mp args
      {| sys_executable := exe; os_posix := false; access_x_ok := true;
         chmod_raises := None; popen := p |}.
Proof.
  unfold run_upload_mp, run_upload_body, mbind, worker_bind.
  by rewrite !before_popen_spec.
Qed.

(** X3.  The child's lines are forwarded one output tuple per line, in
    the order read, each with leading and trailing whitespace (that of
    [str.strip()], Unicode whitespace included) removed;
    then the status tuple and the final tuple follow.  An empty string
    from [readline] ends the forwarding: nothing after it is forwarded. *)
Theorem run_upload_mp_forwards_lines
    (args : upload_args) (env : worker_env)
    (lines ignored : list string) (returncode : Z) :
  Forall (fun line => line <> "") lines ->
  (popen env = Started lines (ReadEOF returncode)
   \/ popen env = Started (lines ++ "" :: ignored) (ReadEOF returncode)) ->
  emitted args env =
    [output ("Starting upload from: " +:+ folder_path args);
     output ("Command: " +:+ join " " (cmd (sys_executable env) args))]
    ++ ((fun line => output (strip line)) <$> lines)
    ++ [status (if decide (returncode = 0%Z) then status_succeeded
                else status_failed returncode);
        finished].
Proof.
  intros Hne Hp. rewrite emitted_spec.
  destruct Hp as [-> | ->]; simpl;
    rewrite ?forwarded_until_empty, (forwarded_all _ Hne), <- app_assoc; done.
Qed.

Lemma run_upload_mp_forwards_lines_witness :
  let nbsp := of_bytes [194; 160] in
  emitted Sample.args
    {| sys_executable := "python3"; os_posix := false; access_x_ok := true;
       chmod_raises := None;
       popen := Started ["  a.jpg ok "; nbsp +:+ "b.jpg ok" +:+ nbsp; ""; "late"]
                  (ReadEOF 0) |}
  = [output "Starting upload from: /a";
     output ("Command: " +:+ join " " (cmd "python3" Sample.args))]
    ++ [output "a.jpg ok"; output "b.jpg ok"]
    ++ [status status_succeeded; finished].
Proof.
  intros nbsp.
  exact (run_upload_mp_forwards_lines Sample.args
           {| sys_executable := "python3"; os_posix := false;
              access_x_ok := true; chmod_raises := None;
              popen := Started ["  a.jpg ok "; nbsp +:+ "b.jpg ok" +:+ nbsp;
                                ""; "late"] (ReadEOF 0) |}
           ["  a.jpg ok "; nbsp +:+ "b.jpg ok" +:+ nbsp] ["late"] 0
           ltac:(repeat constructor; discriminate) (or_intror eq_refl)).
Defined.

(** ** The poll loop: what it logs, what a second poll does *)

(** X4.  A poll only appends to the log.  It appends, job by job in the
    order of the job list and within a job in the order the worker put
    them, one line per output, error and status tuple, each tagged with
    the job's folder, and no line for a final tuple; then, exactly when
    no worker is alive, the closing line. *)
Theorem monitor_all_outputs_log (st : app) :
  log_text (monitor_all_outputs st)
  = log_text st
    ++ concat (job_log <$> jobs st)
    ++ (if existsb alive_job (jobs st) then []
        else ["=== All Upload Jobs Finished ==="]).
Proof. apply monitor_all_outputs_log_text. Qed.

Lemma polled_polled (j : Job.t) : polled (polled j) = polled j.
Proof. rewrite !polled_spec. by destruct j. Qed.

Lemma fmap_fixed {A} (f : A -> A) (l : list A) :
  Forall (fun x => f x = x) l -> f <$> l = l.
Proof. induction 1 as [|x l Hx _ IH]; [done | by rewrite fmap_cons, Hx, IH]. Qed.

Lemma filter_filter {A} (p : A -> bool) (l : list A) :
  List.filter p (List.filter p l) = List.filter p l.
Proof.
  induction l as [|x l IH]; simpl; [done |].
  destruct (p x) eqn:E; simpl; [by rewrite E, IH | done].
Qed.

Lemma filter_polled_fixed (js : list Job.t) :
  Forall (fun j => polled j = j) (List.filter kept (polled <$> js)).
Proof.
  apply Forall_forall. intros j Hin.
  apply list_elem_of_In, List.filter_In in Hin as [Hin _].
  apply list_elem_of_In, list_elem_of_fmap in Hin as (j0 & -> & _).
  apply polled_polled.
Qed.

(** X5.  After a poll every tracked job has an empty queue, and no
    more jobs are tracked than before.  A second poll with no worker
    step in between tracks the same jobs with the same fields and logs
    no line about any job. *)
Theorem monitor_all_outputs_twice (st : app) :
  Forall (fun j => Job.queue j = []) (jobs (monitor_all_outputs st))
  /\ length (jobs (monitor_all_outputs st)) <= length (jobs st)
  /\ jobs (monitor_all_outputs (monitor_all_outputs st))
     = jobs (monitor_all_outputs st)
  /\ concat (job_log <$> jobs (monitor_all_outputs st)) = [].
Proof.
  rewrite !monitor_all_outputs_jobs.
  assert (Hq : Forall (fun j => Job.queue j = [])
                 (List.filter kept (polled <$> jobs st))).
  { apply Forall_forall. intros j Hin.
    apply list_elem_of_In, List.filter_In in Hin as [Hin _].
    apply list_elem_of_In, list_elem_of_fmap in Hin as (j0 & -> & _).
    by rewrite polled_spec. }
  split; [done |]. split; [| split].
  - etrans; [apply List.filter_length_le |]. by rewrite length_fmap.
  - rewrite (fmap_fixed polled _ (filter_polled_fixed (jobs st))).
    apply filter_filter.
  - induction Hq as [|j l Hj _ IH]; [done |].
    rewrite fmap_cons. simpl. rewrite IH. unfold job_log. by rewrite Hj.
Qed.

(** ** A finished run, as the poll loop shows it *)



Lemma omap_log_line_outputs (folder : string) (lines : list string) :
  omap (log_line folder) ((fun line => output (strip line)) <$> lines)
  = (fun line => tagged folder (strip line)) <$> lines.
Proof.
  induction lines as [|line rest IH]; [done |].
  csimpl. by rewrite IH.
Qed.



(** ** Launching *)

Lemma existsb_app_true {A} (p : A -> bool) (l : list A) (x : A) :
  p x = true -> existsb p (l ++ [x]) = true.
Proof. intros H. rewrite existsb_app. simpl. rewrite H. by rewrite orb_true_r. Qed.

(** X8.  A launch is refused with one error dialog, and nothing else
    changed, when no folder is selected, else when the folder does not
    exist, else when the uploader script is not found.  Else, when
    reading the policy field raises, the launch raises: no dialog, no
    job, nothing changed.  Otherwise it polls the jobs already tracked
    (draining and pruning them) and appends one new job: worker alive,
    empty queue, status ['Uploading...'], the selected folder and the
    chosen list id.  It starts the progress bar, enables Stop All, shows
    the number of live workers, and registers one more poll. *)
Theorem launch_upload_job_spec (f : Form.t) (env : launch_env) (st : app) :
  (Form.selected_folder f = "" ->
   _launch_upload_job f env st
   = Ok (showerror "Please select a folder first!" st))
  /\ (Form.selected_folder f <> "" -> path_exists env = false ->
      _launch_upload_job f env st
      = Ok (showerror "Selected folder does not exist!" st))
  /\ (Form.selected_folder f <> "" -> path_exists env = true ->
      find_uploader_script env = None ->
      _launch_upload_job f env st
      = Ok (showerror "folder_uploader.py not found!
Please ensure it's in the same directory as this application." st))
  /\ (forall text,
        jobs (showerror text st) = jobs st
        /\ log_text (showerror text st) = log_text st
        /\ status_var (showerror text st) = status_var st
        /\ progress_bar (showerror text st) = progress_bar st
        /\ stop_btn (showerror text st) = stop_btn st
        /\ after_pending (showerror text st) = after_pending st
        /\ dialogs (showerror text st) = dialogs st ++ [text])
  /\ (forall script e,
        Form.selected_folder f <> "" -> path_exists env = true ->
        find_uploader_script env = Some script ->
        Form.multi_face_policy f = Raise e ->
        _launch_upload_job f env st = Raise e)
  /\ (forall script policy,
        Form.selected_folder f <> "" -> path_exists env = true ->
        find_uploader_script env = Some script ->
        Form.multi_face_policy f = Ok policy ->
        let job := new_job (launch_args f script policy) env in
        exists st',
          _launch_upload_job f env st = Ok st'
          /\ jobs st' = List.filter kept (polled <$> jobs st) ++ [job]
          /\ alive_job job = true
          /\ Job.queue job = []
          /\ Job.status job = Uploading
          /\ Job.folder job = Form.selected_folder f
          /\ Job.list_id job = list_id_val f
          /\ after_pending st' = S (after_pending st)
          /\ progress_bar st' = true
          /\ stop_btn st' = true
          /\ status_var st'
             = running_text (S (length (List.filter alive_job (jobs st))))
          /\ log_text st' = log_text st ++ concat (job_log <$> jobs st)
          /\ dialogs st' = dialogs st).
Proof.
  split; [| split; [| split; [| split; [| split]]]].
  - unfold _launch_upload_job. intros ->. by destruct (decide ("" = "")).
  - unfold _launch_upload_job. intros Hne ->.
    by destruct (decide (Form.selected_folder f = "")).
  - unfold _launch_upload_job. intros Hne -> ->.
    by destruct (decide (Form.selected_folder f = "")).
  - done.
  - intros script e Hne Hpe Hfind He.
    unfold _launch_upload_job. rewrite Hpe, Hfind, He.
    by destruct (decide (Form.selected_folder f = "")).
  - intros script policy Hne Hpe Hfind Hpol job.
    unfold _launch_upload_job. rewrite Hpe, Hfind, Hpol.
    destruct (decide (Form.selected_folder f = "")); [done |]. simpl.
    fold job.
    set (st3 := stop_btn_config true _).
    exists (monitor_all_outputs st3). split; [done |].
    assert (Hjobs : jobs st3 = jobs st ++ [job]) by done.
    assert (Hex : existsb alive_job (jobs st3) = true).
    { rewrite Hjobs. by apply existsb_app_true. }
    pose proof (monitor_all_outputs_widgets st3) as (Hd & Hw).
    rewrite Hex in Hw. destruct Hw as (Ha & Hp & Hs & Hv).
    split.
    { rewrite monitor_all_outputs_jobs, Hjobs, fmap_app, List.filter_app.
      done. }
    do 5 (split; [done |]).
    split; [by rewrite Ha |]. split; [by rewrite Hp |]. split; [by rewrite Hs |].
    split.
    { rewrite Hv, Hjobs, List.filter_app, length_app. simpl.
      by rewrite Nat.add_1_r. }
    split; [| by rewrite Hd].
    rewrite monitor_all_outputs_log_text, Hex, Hjobs, fmap_app, concat_app.
    simpl. by rewrite !app_nil_r.
Qed.

Lemma launch_upload_job_spec_witness :
  let typed (text : result Z) :=
    {| Form.selected_folder := "/a"; Form.username := "u";
       Form.password := "pw"; Form.descriptor := "1";
       Form.origin := "http://127.0.0.1:5000"; Form.avatar := "1";
       Form.list_id := "L"; Form.list_id_var := "";
       Form.list_dropdown_current := (-1)%Z; Form.list_options := [];
       Form.warped := true; Form.name_as_userdata := false;
       Form.multi_face_policy := text |} in
  (exists st',
     _launch_upload_job (typed (Ok 1%Z)) (Sample.lenv 0) (Run.launched 0) = Ok st'
     /\ length (jobs st') = 2
     /\ after_pending st' = 2
     /\ stop_btn st' = true
     /\ status_var st' = "2 job(s) running...")
  /\ _launch_upload_job (typed (Raise "expected floating-point number but got x"))
       (Sample.lenv 0) (Run.launched 0)
     = Raise "expected floating-point number but got x"
  /\ _launch_upload_job (typed (Ok 1%Z))
       {| path_exists := false; find_uploader_script := None;
          worker := Sample.wenv 0; worker_terminate_raises := None |}
       (Run.launched 0)
     = Ok (showerror "Selected folder does not exist!" (Run.launched 0)).
Proof.
  intros typed. split; [| split].
  - destruct (launch_upload_job_spec (typed (Ok 1%Z)) (Sample.lenv 0) (Run.launched 0))
      as (_ & _ & _ & _ & _ & Hok).
    destruct (Hok "/opt/folder_uploader.py" 1%Z
                ltac:(discriminate) eq_refl eq_refl eq_refl)
      as (st' & Hl & Hj & _ & _ & _ & _ & _ & Ha & _ & Hs & Hv & _).
    exists st'. split; [exact Hl |].
    split; [by rewrite Hj |]. split; [exact Ha |]. split; [exact Hs |].
    exact Hv.
  - destruct (launch_upload_job_spec
                (typed (Raise "expected floating-point number but got x"))
                (Sample.lenv 0) (Run.launched 0))
      as (_ & _ & _ & _ & Hraise & _).
    exact (Hraise "/opt/folder_uploader.py" _
             ltac:(discriminate) eq_refl eq_refl eq_refl).
  - destruct (launch_upload_job_spec (typed (Ok 1%Z))
                {| path_exists := false; find_uploader_script := None;
                   worker := Sample.wenv 0; worker_terminate_raises := None |}
                (Run.launched 0)) as (_ & Hno & _).
    exact (Hno ltac:(discriminate) eq_refl).
Defined.

(** ** Stop All and Stop Selected *)

Lemma stop_upload_widgets (st : app) :
  after_pending (stop_upload st) = after_pending st
  /\ stop_btn (stop_upload st) = stop_btn st
  /\ progress_bar (stop_upload st) = progress_bar st
  /\ dialogs (stop_upload st) = dialogs st.
Proof.
  unfold stop_upload.
  destruct (stop_loop (jobs st) 0) as [js [|n]]; done.
Qed.

Lemma at_job_state (i : nat) (step_of : Job.t -> option Job.t) (st st' : app) :
  at_job i step_of st = Some st' ->
  exists j j', jobs st !! i = Some j /\ step_of j = Some j'
               /\ st' = set_jobs (<[i := j']> (jobs st)) st.
Proof.
  unfold at_job. destruct (jobs st !! i) as [j|]; [|done].
  destruct (step_of j) as [j'|] eqn:E; [|done].
  intros [= <-]. by exists j, j'.
Qed.

Lemma stop_one_hit (job : Job.t) : snd (stop_one job) = stoppable job.
Proof.
  unfold stop_one, stoppable, alive_job. rewrite terminate_job_spec.
  destruct (Process.is_alive (Job.process job)); [|done].
  by destruct (Process.terminate_raises (Job.process job)).
Qed.

Lemma stop_loop_count (js : list Job.t) (n : nat) :
  snd (stop_loop js n) = n + length (List.filter stoppable js).
Proof.
  revert n. induction js as [|job rest IH]; intros n; simpl; [lia |].
  pose proof (stop_one_hit job) as Hhit.
  destruct (stop_one job) as [job' hit]. simpl in Hhit. subst hit.
  specialize (IH (if stoppable job then S n else n)).
  destruct (stop_loop rest _) as [rest' m]. simpl in *. subst m.
  destruct (stoppable job); simpl; lia.
Qed.

Lemma cancelled_same_events (j : Job.t) : same_events j (cancelled j).
Proof.
  unfold cancelled, same_events.
  destruct (alive_job j); [| done].
  by destruct (Process.terminate_raises (Job.process j)).
Qed.

Lemma stop_upload_log (st : app) :
  log_text (stop_upload st)
  = log_text st
    ++ [match length (List.filter stoppable (jobs st)) with
        | O => "No running jobs to stop."
        | S n => "Stopped " +:+ str_int (Z.of_nat (S n))
                   +:+ " running upload job(s)"
        end]
  /\ status_var (stop_upload st)
     = match length (List.filter stoppable (jobs st)) with
       | O => status_var st
       | S _ => "Upload stopped"
       end.
Proof.
  unfold stop_upload.
  pose proof (stop_loop_count (jobs st) 0) as Hn.
  destruct (stop_loop (jobs st) 0) as [js n]. simpl in Hn. subst n.
  by destruct (length (List.filter stoppable (jobs st))).
Qed.

Lemma cancelled_status (j : Job.t) :
  Job.status (cancelled j) = if stoppable j then Stopped else Job.status j.
Proof.
  unfold cancelled, stoppable.
  destruct (alive_job j); [| done].
  by destruct (Process.terminate_raises (Job.process j)).
Qed.

Lemma cancelled_not_alive (j : Job.t) : alive_job j = false -> cancelled j = j.
Proof. unfold cancelled. by intros ->. Qed.

(** X10.  Stop All acts on exactly the jobs whose worker is alive and
    whose [terminate()] does not raise: it sets their status to
    [Stopped] and leaves the status of every other job; it keeps the
    jobs and their order.  It logs how many jobs it acted on and then
    shows "Upload stopped", or logs "No running jobs to stop." and
    leaves the status line alone when there were none.  It never
    touches a queue, a folder or a list id, nor the pending polls, the
    progress bar, the Stop All button or the dialogs; and when no
    worker is alive it changes no job. *)
Theorem stop_upload_spec (st : app) :
  Forall2 (fun j j' =>
             same_events j j'
             /\ Job.status j' = (if stoppable j then Stopped else Job.status j))
    (jobs st) (jobs (stop_upload st))
  /\ log_text (stop_upload st)
     = log_text st
       ++ [match length (List.filter stoppable (jobs st)) with
           | O => "No running jobs to stop."
           | S n => "Stopped " +:+ str_int (Z.of_nat (S n))
                      +:+ " running upload job(s)"
           end]
  /\ status_var (stop_upload st)
     = match length (List.filter stoppable (jobs st)) with
       | O => status_var st
       | S _ => "Upload stopped"
       end
  /\ after_pending (stop_upload st) = after_pending st
  /\ progress_bar (stop_upload st) = progress_bar st
  /\ stop_btn (stop_upload st) = stop_btn st
  /\ dialogs (stop_upload st) = dialogs st
  /\ (existsb alive_job (jobs st) = false -> jobs (stop_upload st) = jobs st).
Proof.
  destruct (stop_upload_log st) as [Hlog Hsv].
  destruct (stop_upload_widgets st) as (Ha & Hs & Hp & Hd).
  split; [| do 6 (split; [done |])].
  - rewrite stop_upload_jobs. apply Forall2_fmap_r, Forall_Forall2_diag.
    apply Forall_forall. intros j _.
    split; [apply cancelled_same_events | apply cancelled_status].
  - intros Hnone. rewrite stop_upload_jobs.
    rewrite <- (list_fmap_id (jobs st)) at 2.
    apply list_fmap_ext. intros i j Hj. simpl. apply cancelled_not_alive.
    destruct (alive_job j) eqn:E; [| done].
    assert (Hex : existsb alive_job (jobs st) = true); [| congruence].
    apply existsb_exists. exists j. split; [| done].
    eapply list_elem_of_In, list_elem_of_lookup_2, Hj.
Qed.

Lemma stop_upload_spec_witness :
  let st := Run.puts 3 (Run.launched 0) in
  log_text (stop_upload st)
  = log_text st ++ ["Stopped 1 running upload job(s)"]
  /\ status_var (stop_upload st) = "Upload stopped"
  /\ after_pending (stop_upload st) = after_pending st
  /\ Run.status_of_job 0 (stop_upload st) = Some Stopped
  /\ Run.queue_of_job 0 (stop_upload st) = Run.queue_of_job 0 st.
Proof.
  intros st.
  destruct (stop_upload_spec st) as (_ & Hlog & Hsv & Hafter & _).
  split; [exact Hlog |]. split; [exact Hsv |]. split; [exact Hafter |].
  split; vm_compute; reflexivity.
Defined.

(** X11.  Stop Selected never raises and touches at most the job at
    the selected index: every other job, the number of jobs, the status
    line and the pending polls stay as they are.  To the selected job it
    does exactly what Stop All does to every job, and it leaves that
    job's queue, folder and list id alone. *)
Theorem stop_selected_job_frame (sel : list nat) (st : app) :
  exists st',
    stop_selected_job sel st = Ok st'
    /\ length (jobs st') = length (jobs st)
    /\ (forall i, head sel <> Some i -> jobs st' !! i = jobs st !! i)
    /\ (forall i, head sel = Some i ->
          jobs st' !! i = cancelled <$> jobs st !! i)
    /\ Forall2 same_events (jobs st) (jobs st')
    /\ status_var st' = status_var st
    /\ after_pending st' = after_pending st
    /\ length (log_text st') <= S (length (log_text st)).
Proof.
  assert (Hsame : Forall2 same_events (jobs st) (jobs st)).
  { apply Forall_Forall2_diag, Forall_forall. by intros j _. }
  destruct sel as [|idx rest]; simpl.
  { exists st. repeat split; auto. intros i [=]. }
  destruct (decide (length (jobs st) <= idx)) as [Hge | Hlt].
  { exists st. repeat split; auto.
    intros i [= <-]. by rewrite (proj2 (lookup_ge_None _ _) Hge). }
  destruct (jobs st !! idx) as [job|] eqn:E;
    [| apply lookup_ge_None in E; lia].
  assert (Hlog : forall msg, length (log_text (log_message msg st))
                             <= S (length (log_text st))).
  { intros msg. simpl. rewrite length_app. simpl. lia. }
  rewrite terminate_job_spec.
  destruct (Process.is_alive (Job.process job)) eqn:Ha.
  - destruct (Process.terminate_raises (Job.process job)) eqn:Ht.
    + eexists. split; [done |]. simpl. repeat split; auto.
      * intros i [= <-]. rewrite E. simpl. unfold cancelled, alive_job.
        by rewrite Ha, Ht.
      * rewrite length_app. simpl. lia.
    + eexists. split; [done |]. simpl. repeat split.
      * by rewrite length_insert.
      * intros i Hi. apply list_lookup_insert_ne. congruence.
      * intros i [= <-]. rewrite E. simpl. unfold cancelled, alive_job.
        rewrite Ha, Ht. apply list_lookup_insert_eq. lia.
      * apply Forall2_same_length_lookup. split; [by rewrite length_insert |].
        intros i x y Hx Hy. destruct (decide (i = idx)) as [-> | Hne].
        -- rewrite list_lookup_insert_eq in Hy by lia.
           injection Hy as <-. rewrite E in Hx. by injection Hx as <-.
        -- rewrite list_lookup_insert_ne in Hy by done.
           rewrite Hx in Hy. by injection Hy as <-.
      * rewrite length_app. simpl. lia.
  - eexists. split; [done |]. simpl. repeat split; auto.
    + intros i [= <-]. rewrite E. simpl. unfold cancelled, alive_job.
      by rewrite Ha.
    + rewrite length_app. simpl. lia.
Qed.

(** ** Settings: unknown keys, a bad flag, saving and loading back *)

Ltac unfold_save_settings :=
  unfold save_settings, intvar_get, Gui.try_except, mbind, mret, gui_bind,
    gui_ret, Gui.bind, Gui.ret, Gui.raise, Gui.get, Gui.modify, Gui.lift,
    Gui.log_message;
  simpl.

(** X12.  A key of the settings file that is not one of the nine
    known keys is ignored: with or without it, loading ends in the same
    variables, the same log and the same result. *)
Theorem load_settings_ignores_unknown_key
    (tcl_string : pyvalue -> string) (tcl_getboolean : string -> option bool)
    (d : gmap string pyvalue) (key : string) (v : pyvalue) (s : Gui.state) :
  key ∉ settings_keys ->
  load_settings tcl_string tcl_getboolean (Parsed (PDict (<[key := v]> d))) s
  = load_settings tcl_string tcl_getboolean (Parsed (PDict d)) s.
Proof.
  unfold settings_keys. rewrite !not_elem_of_cons. intros Hk.
  destruct Hk as (?&?&?&?&?&?&?&?&?&_).
  unfold_load_settings.
  by rewrite !lookup_insert_ne by done.
Qed.

Lemma load_settings_ignores_unknown_key_witness :
  load_settings SampleSettings.tcl_string SampleSettings.tcl_getboolean
    (Parsed (PDict (<["theme" := PStr "dark"]> SampleSettings.settings)))
    (Vars.defaults, [])
  = load_settings SampleSettings.tcl_string SampleSettings.tcl_getboolean
      (Parsed (PDict SampleSettings.settings)) (Vars.defaults, []).
Proof.
  apply load_settings_ignores_unknown_key.
  unfold settings_keys. rewrite !not_elem_of_cons.
  repeat split; try discriminate. apply not_elem_of_nil.
Defined.

(** X13.  A settings file whose [warped] value Tcl does not accept as
    a Boolean is applied half way: the six text variables are set from
    the file (or keep their value where the key is missing), the two
    flags and the multi-face policy keep their old values, one
    "Could not load settings" line is logged and nothing is raised. *)
Theorem load_settings_bad_flag
    (tcl_string : pyvalue -> string) (tcl_getboolean : string -> option bool)
    (d : gmap string pyvalue) (v : pyvalue) (e : string)
    (vars : Vars.t) (log : list string) :
  d !! "warped" = Some v ->
  getboolean tcl_getboolean v = Raise e ->
  exists vars',
    load_settings tcl_string tcl_getboolean (Parsed (PDict d)) (vars, log)
    = ((vars', log ++ ["Could not load settings: " +:+ e]), Ok ())
    /\ Vars.username vars'
       = string_value tcl_string (default (PStr (Vars.username vars)) (d !! "username"))
    /\ Vars.password vars'
       = string_value tcl_string (default (PStr (Vars.password vars)) (d !! "password"))
    /\ Vars.descriptor vars'
       = string_value tcl_string (default (PStr (Vars.descriptor vars)) (d !! "descriptor"))
    /\ Vars.origin vars'
       = string_value tcl_string (default (PStr (Vars.origin vars)) (d !! "origin"))
    /\ Vars.avatar vars'
       = string_value tcl_string (default (PStr (Vars.avatar vars)) (d !! "avatar"))
    /\ Vars.list_id vars'
       = string_value tcl_string (default (PStr (Vars.list_id vars)) (d !! "list_id"))
    /\ Vars.warped vars' = Vars.warped vars
    /\ Vars.name_as_userdata vars' = Vars.name_as_userdata vars
    /\ Vars.multi_face_policy vars' = Vars.multi_face_policy vars.
Proof.
  intros Hw He. unfold_load_settings. rewrite Hw. simpl. rewrite He. simpl.
  eexists. split; [reflexivity |]. simpl. repeat split.
Qed.

Lemma load_settings_bad_flag_witness :
  exists vars',
    load_settings SampleSettings.tcl_string SampleSettings.tcl_getboolean
      (Parsed (PDict SampleSettings.settings)) (Vars.defaults, [])
    = ((vars', [] ++ ["Could not load settings: "
                        +:+ "expected boolean value but got 'maybe'"]), Ok ())
    /\ Vars.username vars' = "bob"
    /\ Vars.avatar vars' = "7"
    /\ Vars.warped vars' = false
    /\ Vars.multi_face_policy vars' = PInt 1.
Proof.
  destruct (load_settings_bad_flag
              SampleSettings.tcl_string SampleSettings.tcl_getboolean
              SampleSettings.settings (PStr "maybe")
              "expected boolean value but got 'maybe'"
              Vars.defaults [] eq_refl eq_refl)
    as (vars' & Hload & Hu & _ & _ & _ & Hav & _ & Hw & _ & Hm).
  exists vars'. split; [exact Hload |]. split; [exact Hu |].
  split; [exact Hav |]. split; [exact Hw | exact Hm].
Defined.

(** X14.  Saving and loading back restores the variables: when the
    multi-face policy holds an integer and the file can be written,
    [save_settings] returns normally, logs the success line and writes
    an object from which [load_settings], started from any values,
    restores exactly the saved variables and logs its success line. *)
Theorem save_then_load_restores
    (tcl_getint : pyvalue -> result Z)
    (tcl_string : pyvalue -> string) (tcl_getboolean : string -> option bool)
    (vars : Vars.t) (log : list string) (n : Z) (other : Gui.state) :
  Vars.multi_face_policy vars = PInt n ->
  exists file,
    save_settings tcl_getint Written (vars, log)
    = ((vars, log ++ ["Settings saved successfully"]),
       Ok {| written := Some file;
             dialog := ("Success",
                        "Settings for Gelecek Folder Uploader saved successfully!") |})
    /\ dom file = list_to_set settings_keys
    /\ load_settings tcl_string tcl_getboolean (Parsed (PDict file)) other
       = ((vars, snd other
                 ++ ["Settings for Gelecek Folder Uploader loaded successfully"]),
          Ok ()).
Proof.
  intros Hn. destruct vars as [u p de o a l w na m]. simpl in Hn. subst m.
  exists (settings_of
            {| Vars.username := u; Vars.password := p; Vars.descriptor := de;
               Vars.origin := o; Vars.avatar := a; Vars.list_id := l;
               Vars.warped := w; Vars.name_as_userdata := na;
               Vars.multi_face_policy := PInt n |} n).
  split; [reflexivity |]. split.
  - unfold settings_of, settings_keys. rewrite !dom_insert_L, dom_empty_L.
    simpl. set_solver.
  - destruct other as [vars0 log0]. reflexivity.
Qed.

Lemma save_then_load_restores_witness :
  exists file,
    save_settings (fun _ => Raise "expected integer") Written (Vars.defaults, [])
    = ((Vars.defaults, [] ++ ["Settings saved successfully"]),
       Ok {| written := Some file;
             dialog := ("Success",
                        "Settings for Gelecek Folder Uploader saved successfully!") |})
    /\ dom file = list_to_set settings_keys
    /\ load_settings SampleSettings.tcl_string SampleSettings.tcl_getboolean
         (Parsed (PDict file)) (Vars.defaults, ["x"])
       = ((Vars.defaults,
           snd (Vars.defaults, ["x"])
           ++ ["Settings for Gelecek Folder Uploader loaded successfully"]),
          Ok ()).
Proof.
  exact (save_then_load_restores (fun _ => Raise "expected integer")
           SampleSettings.tcl_string SampleSettings.tcl_getboolean
           Vars.defaults [] 1 (Vars.defaults, ["x"]) eq_refl).
Defined.



(** ** Looking for the uploader script *)

Lemma find_first {A} (p : A -> bool) (l : list A) (x : A) :
  List.find p l = Some x ->
  exists before after,
    l = before ++ x :: after
    /\ Forall (fun y => p y = false) before /\ p x = true.
Proof.
  induction l as [|y l IH]; simpl; [done |].
  destruct (p y) eqn:E.
  - intros [= ->]. by exists [], l.
  - intros H. destruct (IH H) as (before & after & -> & Hb & Hx).
    exists (y :: before), after. repeat split; [| done]. by constructor.
Qed.

Lemma find_none {A} (p : A -> bool) (l : list A) :
  List.find p l = None <-> Forall (fun y => p y = false) l.
Proof.
  induction l as [|y l IH]; simpl; [by split; [constructor |] |].
  destruct (p y) eqn:E.
  - split; [done |]. intros H. apply Forall_cons in H as [H _]. congruence.
  - rewrite IH. split; [by constructor |]. by intros [_ H]%Forall_cons.
Qed.

(** X16.  The script search returns nothing exactly when none of the
    candidate paths is a file.  A copy next to the application wins and
    is returned as it is; otherwise the first candidate, in the order
    of the list, that is a file is returned, made absolute. *)
Theorem find_uploader_script_first_file
    (current_dir : string) (path_join : list string -> string)
    (abspath : string -> string) (isfile : string -> bool) (posix : bool) :
  let found := Script.find_uploader_script current_dir path_join abspath isfile posix in
  let candidates := Script.common_paths current_dir path_join posix in
  (found = None <-> Forall (fun c => isfile c = false) candidates)
  /\ (isfile (path_join [current_dir; "folder_uploader.py"]) = true ->
      found = Some (path_join [current_dir; "folder_uploader.py"]))
  /\ (forall p, found = Some p ->
        exists before c after,
          candidates = before ++ c :: after
          /\ Forall (fun y => isfile y = false) before
          /\ isfile c = true
          /\ p = match before with [] => c | _ :: _ => abspath c end).
Proof.
  intros found candidates. subst found candidates.
  unfold Script.find_uploader_script.
  set (local := path_join [current_dir; "folder_uploader.py"]).
  set (cands := Script.common_paths current_dir path_join posix).
  assert (Hhd : exists rest, cands = local :: rest).
  { unfold cands, Script.common_paths. simpl. by eexists. }
  destruct Hhd as [rest Hc].
  destruct (isfile local) eqn:Hl.
  - split; [| split].
    + split; [done |]. rewrite Hc. intros H.
      apply Forall_cons in H as [H _]. congruence.
    + done.
    + intros p [= <-]. exists [], local, rest. by rewrite Hc.
  - split; [| split].
    + rewrite <- find_none. by destruct (List.find isfile cands).
    + done.
    + intros p Hp. destruct (List.find isfile cands) as [c|] eqn:Hf; [|done].
      injection Hp as <-.
      apply find_first in Hf as (before & after & Heq & Hb & Hx).
      exists before, c, after. repeat split; try done.
      destruct before as [|y before]; [| done].
      rewrite Hc in Heq. injection Heq as -> _. congruence.
Qed.

Lemma find_uploader_script_first_file_witness :
  Script.find_uploader_script "/app" (String.concat "/") (fun p => "/cwd/" +:+ p)
    (fun p => String.eqb p "/app/folder_uploader.py") true
  = Some "/app/folder_uploader.py".
Proof.
  exact (proj1 (proj2 (find_uploader_script_first_file "/app" (String.concat "/")
                         (fun p => "/cwd/" +:+ p)
                         (fun p => String.eqb p "/app/folder_uploader.py") true))
           eq_refl).
Defined.

(** ** Which jobs leave the job list *)

Lemma status_after_finished_last (q : list message) (s : string) :
  last q = Some finished -> status_after q s = Finished.
Proof.
  intros [pre ->]%last_Some. unfold status_after. by rewrite foldl_app.
Qed.

Lemma new_job_reports_end (args : upload_args) (env : launch_env) :
  reports_end (new_job args env).
Proof.
  split; [done |]. left. simpl. rewrite emitted_spec.
  change (output (starting_line args)
            :: output (command_line args (worker env))
            :: after_popen (popen (worker env)) ++ [finished])
    with ((output (starting_line args)
             :: output (command_line args (worker env))
             :: after_popen (popen (worker env))) ++ [finished]).
  apply last_snoc.
Qed.

Lemma apply_op_reports_end (op : job_op) (j : Job.t) :
  op <> Cancel -> reports_end j -> reports_end (apply_op op j).
Proof.
  intros Hop [Hdead Hend]. destruct op; [| done | |]; simpl.
  - rewrite drain_job. unfold reports_end. simpl. split; [done |].
    destruct Hend as [Hlast | (Hq & Hp & Hs)].
    + destruct (Process.to_put (Job.process j)) as [|m rest] eqn:Hp.
      * right. rewrite app_nil_r in Hlast.
        by rewrite (status_after_finished_last _ _ Hlast).
      * left. rewrite last_app in Hlast.
        destruct (last (m :: rest)) as [x|] eqn:Hl; [done |].
        by apply last_None in Hl.
    + right. by rewrite Hq, Hp.
  - destruct (worker_put j) as [j'|] eqn:E; simpl; [| done].
    apply worker_put_spec in E as (m & rest & Hp & Ha & Hp' & Hq' & Hs' & Ha').
    split; [by rewrite Ha' |].
    destruct Hend as [Hlast | (_ & Hnil & _)]; [| by rewrite Hp in Hnil].
    left. rewrite Hq', Hp', <- app_assoc. simpl. by rewrite <- Hp.
  - destruct (worker_exit j) as [j'|] eqn:E; simpl; [| done].
    apply worker_exit_spec in E as (Ha & Hp & Hp' & Hq' & Hs' & Ha').
    split; [done |]. rewrite Hq', Hp', Hs'. by rewrite Hp in Hend.
Qed.

Lemma run_ops_reports_end (ops : list job_op) (j : Job.t) :
  never_cancelled ops -> reports_end j -> reports_end (run_ops ops j).
Proof.
  unfold never_cancelled. revert j.
  induction ops as [|op ops IH]; intros j Hnc Hj; [done |].
  apply not_elem_of_cons in Hnc as [Hop Hnc].
  change (run_ops (op :: ops) j) with (run_ops ops (apply_op op j)).
  apply IH; [done |]. apply apply_op_reports_end; [congruence | done].
Qed.

(** X17.  A job that is never cancelled does not linger in the job
    list: whatever polls and worker steps have happened, once its worker
    has ended the next poll leaves its status at [Finished] and removes
    it. *)
Theorem uncancelled_job_is_pruned
    (args : upload_args) (env : launch_env) (ops : list job_op) (st : app) :
  Cancel ∉ ops ->
  alive_job (run_ops ops (new_job args env)) = false ->
  Job.status (polled (run_ops ops (new_job args env))) = Finished
  /\ kept (polled (run_ops ops (new_job args env))) = false
  /\ polled (run_ops ops (new_job args env)) ∉ jobs (monitor_all_outputs st).
Proof.
  intros Hnc Ha.
  destruct (run_ops_reports_end ops _ Hnc (new_job_reports_end args env))
    as [Hdead Hend].
  set (j := run_ops ops (new_job args env)) in *.
  assert (Hst : Job.status (polled j) = Finished).
  { rewrite polled_spec. simpl.
    destruct Hend as [Hlast | (Hq & _ & Hs)].
    - rewrite (Hdead Ha), app_nil_r in Hlast.
      by apply status_after_finished_last.
    - by rewrite Hq. }
  assert (Hk : kept (polled j) = false).
  { apply kept_false. by rewrite alive_polled. }
  split; [done |]. split; [done |].
  rewrite monitor_all_outputs_jobs. intros Hin.
  apply list_elem_of_In, List.filter_In in Hin as [_ Hin]. congruence.
Qed.

Lemma uncancelled_job_is_pruned_witness :
  let j := run_ops [Put; Poll; Put; Put; Put; Poll; Put; Exit]
             (new_job Sample.args (Sample.lenv 1)) in
  alive_job j = false
  /\ Job.status j = status_failed 1
  /\ Job.status (polled j) = Finished
  /\ kept (polled j) = false
  /\ polled j ∉ jobs (monitor_all_outputs init_app).
Proof.
  intros j. split; [vm_compute; reflexivity |].
  split; [vm_compute; reflexivity |].
  apply (uncancelled_job_is_pruned Sample.args (Sample.lenv 1)
           [Put; Poll; Put; Put; Put; Poll; Put; Exit] init_app).
  - rewrite !not_elem_of_cons. repeat split; try discriminate.
    apply not_elem_of_nil.
  - vm_compute. reflexivity.
Defined.

Lemma runner_status_not_Finished (s : string) : runner_status s -> s <> Finished.
Proof.
  intros [rc ->]. unfold status_of_returncode.
  destruct (decide (rc = 0%Z)); [discriminate | apply status_failed_not_Finished].
Qed.

Lemma status_after_not_Finished (q : list message) (s : string) :
  Forall from_runner q -> finished ∉ q -> s <> Finished ->
  status_after q s <> Finished.
Proof.
  unfold status_after. revert s.
  induction q as [|m q IH]; intros s Hq Hnf Hs; simpl; [done |].
  apply Forall_cons in Hq as [Hm Hq].
  apply not_elem_of_cons in Hnf as [Hne Hnf].
  apply IH; [done | done |].
  destruct m; simpl in *; try done. by apply runner_status_not_Finished.
Qed.

Lemma apply_op_lingering (op : job_op) (j : Job.t) :
  lingering j -> lingering (apply_op op j).
Proof.
  intros (Ha & Hnf & Hs & Hwf). destruct op; simpl.
  - rewrite drain_job. unfold lingering. simpl.
    split; [done |]. split; [apply not_elem_of_nil |].
    split; [by apply status_after_not_Finished | constructor].
  - rewrite stop_one_cancelled. unfold cancelled. by rewrite Ha.
  - unfold worker_put. unfold alive_job in Ha. by rewrite Ha.
  - unfold worker_exit. unfold alive_job in Ha. by rewrite Ha.
Qed.

Lemma run_ops_lingering (ops : list job_op) (j : Job.t) :
  lingering j -> lingering (run_ops ops j).
Proof.
  revert j. induction ops as [|op ops IH]; intros j Hj; [done |].
  change (run_ops (op :: ops) j) with (run_ops ops (apply_op op j)).
  by apply IH, apply_op_lingering.
Qed.

(** X18.  A job that is stopped before its worker has put the final
    tuple stays in the job list for good: whatever polls, cancels and
    worker steps follow, its worker is not alive, its status never
    becomes [Finished], and every poll keeps it. *)
Theorem stopped_job_is_never_pruned
    (args : upload_args) (env : launch_env) (before after : list job_op)
    (st : app) :
  let j := run_ops before (new_job args env) in
  alive_job j = true ->
  Process.terminate_raises (Job.process j) = None ->
  finished ∉ Job.queue j ->
  let j' := run_ops after (apply_op Cancel j) in
  alive_job j' = false
  /\ Job.status j' <> Finished
  /\ kept j' = true
  /\ (j' ∈ jobs st -> polled j' ∈ jobs (monitor_all_outputs st)).
Proof.
  intros j Ha Ht Hnf j'.
  assert (Hwf : well_formed j).
  { apply run_ops_invariant; [apply new_job_well_formed | by left]. }
  assert (Hl : lingering (apply_op Cancel j)).
  { simpl. rewrite stop_one_cancelled. unfold cancelled. rewrite Ha, Ht.
    unfold lingering. simpl. split; [done |]. split; [done |].
    split; [discriminate |].
    unfold well_formed in Hwf. by apply Forall_app in Hwf as [Hq _]. }
  apply (run_ops_lingering after) in Hl. fold j' in Hl.
  destruct Hl as (Ha' & Hnf' & Hs' & Hwf').
  assert (Hk : kept j' = true) by (apply kept_spec; by right).
  split; [done |]. split; [done |]. split; [done |].
  intros Hin. rewrite monitor_all_outputs_jobs.
  apply list_elem_of_In, List.filter_In. split.
  - apply list_elem_of_In, list_elem_of_fmap. by exists j'.
  - apply kept_spec. right. rewrite polled_spec. simpl.
    by apply status_after_not_Finished.
Qed.

Lemma stopped_job_is_never_pruned_witness :
  let j := run_ops [Put; Put; Put; Put] (new_job Sample.args (Sample.lenv 0)) in
  let j' := run_ops [Poll; Put; Exit; Poll] (apply_op Cancel j) in
  alive_job j = true
  /\ alive_job j' = false
  /\ Job.status j' = status_succeeded
  /\ Job.status j' <> Finished
  /\ kept j' = true.
Proof.
  intros j j'. split; [vm_compute; reflexivity |].
  destruct (stopped_job_is_never_pruned Sample.args (Sample.lenv 0)
              [Put; Put; Put; Put] [Poll; Put; Exit; Poll] init_app)
    as (H1 & H2 & H3 & _).
  - vm_compute. reflexivity.
  - vm_compute. reflexivity.
  - intros H. vm_compute in H.
    repeat (apply elem_of_cons in H as [H | H]; [discriminate H |]).
    by apply elem_of_nil in H.
  - fold j j' in H1, H2, H3.
    split; [exact H1 |]. split; [vm_compute; reflexivity |].
    split; [exact H2 | exact H3].
Defined.

(** ** The log only grows *)

Lemma step_log_prefix (st st' : app) :
  step st st' -> log_text st `prefix_of` log_text st'.
Proof.
  intros Hstep.
  destruct Hstep as [st f env st' Hl | st Hp | st Hb | st sel st' Hs
                    | st i st' Hw | st i st' Hw].
  - unfold _launch_upload_job in Hl.
    destruct (decide (Form.selected_folder f = "")); [by injection Hl as <- |].
    destruct (negb (path_exists env)); [by injection Hl as <- |].
    destruct (find_uploader_script env) as [script|]; [| by injection Hl as <-].
    destruct (Form.multi_face_policy f) as [policy|e]; [| done].
    injection Hl as <-.
    rewrite monitor_all_outputs_log_text. by eexists.
  - unfold tick. rewrite monitor_all_outputs_log_text. by eexists.
  - destruct (stop_upload_log st) as [-> _]. by eexists.
  - destruct sel as [|idx rest]; simpl in Hs; [by injection Hs as <- |].
    destruct (decide (length (jobs st) <= idx)); [by injection Hs as <- |].
    destruct (jobs st !! idx) as [job|]; [| done].
    destruct (Process.is_alive (Job.process job)).
    + destruct (terminate_job job); injection Hs as <-; by eexists.
    + injection Hs as <-. by eexists.
  - apply at_job_state in Hw as (j & j' & _ & _ & ->). done.
  - apply at_job_state in Hw as (j & j' & _ & _ & ->). done.
Qed.



(** ** The list dropdown *)

Lemma option_of_Some (item : pyvalue) (o : pyvalue * pyvalue) :
  Lists.option_of item = Some o <->
  Lists.getitem item "list_id" = Some (fst o)
  /\ Lists.getitem item "user_data" = Some (snd o).
Proof.
  unfold Lists.option_of. destruct o as [lid name]. simpl.
  destruct (Lists.getitem item "list_id") as [lid'|]; simpl;
    [| split; [done | by intros [? _]]].
  destruct (Lists.getitem item "user_data") as [name'|]; simpl;
    [| split; [done | by intros [_ ?]]].
  split; [by intros [= -> ->] | by intros [[= ->] [= ->]]].
Qed.

(** X20.  When the list service answers with a JSON object whose
    ["lists"] entries all have a [list_id] and a [user_data], the
    dropdown shows one text per entry, in the order of the answer, and
    choosing the i-th text selects the list id of the i-th entry; the
    first entry is preselected.  An empty answer shows "No lists found"
    and keeps the list id.  If a single entry lacks one of the two keys
    (or the answer is no object, or the request fails) the whole answer
    is dropped: "Failed to load lists" is shown and options and list id
    stay as they were.  A selection outside the options changes
    nothing. *)
Theorem fetch_lists_dropdown
    (py_format tcl_string : pyvalue -> string) (data : pyvalue) (s : Lists.t) :
  let fetch := Lists.fetch_lists py_format tcl_string in
  let s' := fetch (Lists.Json data) s in
  (forall d l, data = PDict d -> d !! "lists" = Some (PList l) ->
     Forall (fun item => is_Some (Lists.getitem item "list_id")
                         /\ is_Some (Lists.getitem item "user_data")) l ->
     Forall2 (fun item o => Lists.getitem item "list_id" = Some (fst o)
                            /\ Lists.getitem item "user_data" = Some (snd o))
       l (Lists.list_options s')
     /\ (l <> [] -> Lists.values s' = Lists.shown py_format <$> Lists.list_options s')
     /\ (l = [] -> Lists.values s' = ["No lists found"]
                   /\ Lists.list_id_var s' = ""
                   /\ Lists.list_id s' = Lists.list_id s)
     /\ (forall first, head (Lists.list_options s') = Some first ->
           Lists.list_id_var s' = Lists.shown py_format first
           /\ Lists.list_id s' = string_value tcl_string (fst first))
     /\ (forall i o, Lists.list_options s' !! i = Some o ->
           Lists.values s' !! i = Some (Lists.shown py_format o)
           /\ Lists.list_id (Lists.on_list_select tcl_string (Z.of_nat i) s')
              = string_value tcl_string (fst o)))
  /\ (forall d l, data = PDict d -> d !! "lists" = Some (PList l) ->
        Exists (fun item => Lists.getitem item "list_id" = None
                            \/ Lists.getitem item "user_data" = None) l ->
        s' = Lists.failed s)
  /\ ((forall d, data <> PDict d) -> s' = Lists.failed s)
  /\ fetch Lists.RequestRaises s = Lists.failed s
  /\ fetch Lists.ImportFails s = s
  /\ (forall idx, ~ (0 <= idx < Z.of_nat (length (Lists.list_options s)))%Z ->
        Lists.on_list_select tcl_string idx s = s).
Proof.
  intros fetch s'. subst fetch s'.
  split; [| split; [| split; [| split; [| split]]]].
  - intros d l -> Hl Hall. unfold Lists.fetch_lists, Lists.fetched.
    simpl. rewrite Hl. simpl.
    assert (Hsome : is_Some (mapM Lists.option_of l)).
    { apply mapM_is_Some. eapply Forall_impl; [exact Hall |].
      intros item [[lid Hlid] [name Hname]]. simpl.
      exists (lid, name). by apply option_of_Some. }
    destruct Hsome as [options Hopts]. rewrite Hopts. simpl.
    pose proof (mapM_Some_1 _ _ _ Hopts) as Hf2.
    assert (Hf2' : Forall2
              (fun item o => Lists.getitem item "list_id" = Some (fst o)
                             /\ Lists.getitem item "user_data" = Some (snd o))
              l options).
    { eapply Forall2_impl; [exact Hf2 |]. intros item o. apply option_of_Some. }
    assert (Hlk : forall i o, options !! i = Some o ->
              (Lists.shown py_format <$> options) !! i
              = Some (Lists.shown py_format o)).
    { intros i o Hi. by rewrite list_lookup_fmap, Hi. }
    destruct options as [|first rest]; simpl.
    + apply Forall2_nil_inv_r in Hf2 as ->.
      split; [constructor |]. split; [done |]. split; [done |].
      split; [done |]. intros i o. by rewrite lookup_nil.
    + split; [done |]. split; [done |].
      split; [intros ->; by apply Forall2_nil_inv_l in Hf2 |].
      split; [by intros ? [= <-] |].
      intros i o Hi. split.
      * by apply Hlk.
      * unfold Lists.on_list_select. simpl.
        pose proof (lookup_lt_Some _ _ _ Hi) as Hlt. simpl in Hlt.
        destruct (decide _) as [_ | Hno]; [| lia].
        by rewrite Nat2Z.id, Hi.
  - intros d l -> Hl Hex. unfold Lists.fetch_lists, Lists.fetched.
    simpl. rewrite Hl. simpl.
    assert (Hnone : mapM Lists.option_of l = None).
    { apply mapM_None. eapply Exists_impl; [exact Hex |].
      intros item Hitem. simpl in Hitem. unfold Lists.option_of.
      destruct Hitem as [-> | Hn]; [done |].
      destruct (Lists.getitem item "list_id"); simpl; [by rewrite Hn | done]. }
    by rewrite Hnone.
  - intros Hnd. unfold Lists.fetch_lists, Lists.fetched.
    destruct data as [| | | | | | d]; try done. by destruct (Hnd d).
  - done.
  - done.
  - intros idx Hidx. unfold Lists.on_list_select.
    by destruct (decide _).
Qed.

Lemma fetch_lists_dropdown_witness :
  let item (lid name : string) : pyvalue :=
    PDict (<["list_id" := PStr lid]> (<["user_data" := PStr name]> ∅)) in
  let data := PDict (<["lists" := PList [item "id-1" "staff"; item "id-2" "guests"]]> ∅) in
  let s' := Lists.fetch_lists SampleSettings.tcl_string SampleSettings.tcl_string
              (Lists.Json data) Lists.loading in
  Lists.values s' = ["staff (id-1)"; "guests (id-2)"]
  /\ Lists.list_id s' = "id-1"
  /\ Lists.list_id (Lists.on_list_select SampleSettings.tcl_string 1 s') = "id-2".
Proof.
  intros item data s'.
  destruct (fetch_lists_dropdown SampleSettings.tcl_string
              SampleSettings.tcl_string data Lists.loading) as (Hok & _).
  destruct (Hok (<["lists" := PList [item "id-1" "staff"; item "id-2" "guests"]]> ∅)
              [item "id-1" "staff"; item "id-2" "guests"] eq_refl eq_refl)
    as (_ & Hvals & _ & Hfirst & Hsel).
  { repeat constructor; by eexists. }
  fold s' in Hvals, Hfirst, Hsel.
  split; [rewrite (Hvals ltac:(discriminate)); vm_compute; reflexivity |].
  split.
  - exact (proj2 (Hfirst (PStr "id-1", PStr "staff") eq_refl)).
  - exact (proj2 (Hsel 1%nat (PStr "id-2", PStr "guests") eq_refl)).
Defined.
